(** * RunLLHScan: the likelihood grid-scan driver of pisa

    A shallow embedding of [pisa/analysis/llr/RunLLHScan.py]: the script reads
    three settings documents, builds the Asimov data set once, and then walks
    the Cartesian product of the atmospheric parameters' step lists, calling
    the optimizer [find_opt_scipy] at every grid point and collecting the
    last likelihood of each call.

    Python dictionaries are finite maps ([gmap string _]), Python floats are
    Rocq's binary64 floats, and the statements of the script thread an
    explicit state.  An uncaught Python exception ends the script: it is an
    outcome [Raised] that keeps the state reached when it was thrown. *)

From Stdlib Require Import PrimFloat.
From stdpp Require Import gmap strings list fin_maps sorting lexico.

Set Warnings "-inexact-float,-clear-no-such-hyp".

(** * The embedding *)

(** ** Values and exceptions *)

(** The scalars that occur in the settings documents and in the results. *)
Inductive pyval : Type :=
  | PyInt (z : Z)
  | PyFloat (f : float)
  | PyStr (s : string).

(** A float is finite when it is neither a NaN nor an infinity. *)
Definition is_finite (v : pyval) : bool :=
  match v with
  | PyFloat f => negb (PrimFloat.is_nan f || PrimFloat.is_infinity f)
  | _ => true
  end.

(** The exceptions the script can die of: a missing dictionary key, an
    index into an empty list, and whatever the optimizer raises. *)
Inductive exn : Type :=
  | KeyError (k : string)
  | IndexError
  | EvaluatorError (msg : string).

(** ** Parameter settings *)

(** One entry of the [params] dictionary.  The script reads and writes the
    keys ['value'], ['fixed'] and ['steps']; ['steps'] is absent until
    [calc_steps] has filled it in. *)
Module Param.
Record t : Type := mk {
  value : pyval;
  fixed : bool;
  steps : option (list pyval)
}.

(** [param['value'] = v] *)
Definition set_value (v : pyval) (p : t) : t :=
  {| value := v; fixed := fixed p; steps := steps p |}.
End Param.

Abbreviation params := (gmap string Param.t).

(** A scan position: the [(name, step)] pairs of one grid point. *)
Abbreviation position := (list (string * pyval)).

(** ** [itertools.product] *)

(** The documented equivalent of [itertools.product], applied to the pools:
<<
    result = [[]]
    for pool in pools:
        result = [x+[y] for x in result for y in pool]
>> *)
Definition product_step {A} (result : list (list A)) (pool : list A)
    : list (list A) :=
  result ≫= λ x, (λ y, x ++ [y]) <$> pool.

Definition product {A} (pools : list (list A)) : list (list A) :=
  foldl product_step [[]] pools.

(** The same enumeration, by recursion on the pools: the first pool is the
    outermost loop. *)
Fixpoint nested_loops {A} (pools : list (list A)) : list (list A) :=
  match pools with
  | [] => [[]]
  | pool :: pools => pool ≫= λ y, (y ::.) <$> nested_loops pools
  end.

(** ** The step list *)

(** Python compares the [(name, param)] tuples by name first; the names are
    the keys of a dictionary, hence distinct, so the second component is
    never compared. *)
Definition item_le {A} (x y : string * A) : Prop := (x.1 ≤ y.1)%string.

Global Instance item_le_dec {A} : RelDecision (@item_le A).
Proof. intros x y. unfold item_le. apply _. Defined.

(** [sorted(atm_params.items())] *)
Definition sorted_items {A} (m : gmap string A) : list (string * A) :=
  merge_sort item_le (map_to_list m).

(** [[(name, step) for step in param['steps']]] *)
Definition name_steps (name : string) (p : Param.t) : exn + list (string * pyval) :=
  match Param.steps p with
  | None => inl (KeyError "steps")
  | Some l => inr (pair name <$> l)
  end.

(** [[[(name,step) for step in param['steps']]
      for name, param in sorted(atm_params.items())]] *)
Fixpoint steplist_of (items : list (string * Param.t))
    : exn + list (list (string * pyval)) :=
  match items with
  | [] => inr []
  | (name, p) :: items =>
      match name_steps name p with
      | inl e => inl e
      | inr pool =>
          match steplist_of items with
          | inl e => inl e
          | inr pools => inr (pool :: pools)
          end
      end
  end.

Definition steplist (atm_params : params) : exn + list (list (string * pyval)) :=
  steplist_of (sorted_items atm_params).

(** ** The scan loop *)

(** The variables the loop works on.  [hypo_params] and [steps] are the
    script's dictionaries of these names; [stored] says whether
    [results[data_tag][hypo_tag]] has been bound to the [steps] object (the
    binding is a reference, so later appends show through it); [calls]
    logs the [hypo_params] handed to [find_opt_scipy], one entry per call. *)
Record state : Type := mk_state {
  hypo_params : params;
  steps : gmap string (list pyval);
  stored : bool;
  calls : list params
}.

Inductive outcome : Type :=
  | Done (st : state)
  | Raised (e : exn) (st : state).

Definition and_then (o : outcome) (k : state → outcome) : outcome :=
  match o with
  | Done st => k st
  | Raised e st => Raised e st
  end.

(** [dict(list(pos))]: later pairs override earlier ones. *)
Definition dict {A} (l : list (string * A)) : gmap string A :=
  foldl (λ m kv, <[kv.1 := kv.2]> m) ∅ l.

(** The body of [for k,v in pos_dict.items()]:
<<
        hypo_params[k]['value'] = v
        steps[k].append(v)
>> *)
Definition fix_param (kv : string * pyval) (st : state) : outcome :=
  match hypo_params st !! kv.1 with
  | None => Raised (KeyError kv.1) st
  | Some p =>
      let hp := <[kv.1 := Param.set_value kv.2 p]> (hypo_params st) in
      match steps st !! kv.1 with
      | None => Raised (KeyError kv.1) (mk_state hp (steps st) (stored st) (calls st))
      | Some row =>
          Done (mk_state hp (<[kv.1 := row ++ [kv.2]]> (steps st)) (stored st) (calls st))
      end
  end.

Fixpoint fix_params (items : list (string * pyval)) (st : state) : outcome :=
  match items with
  | [] => Done st
  | kv :: items => and_then (fix_param kv st) (fix_params items)
  end.

(** The last element of the likelihood trajectory, [llh_data['llh'][-1]]. *)
Definition final_llh (llh_data : gmap string (list pyval)) : exn + pyval :=
  match llh_data !! "llh" with
  | None => inl (KeyError "llh")
  | Some traj =>
      match last traj with
      | None => inl IndexError
      | Some x => inr x
      end
  end.

Section ScanLoop.
(** [find_opt_scipy] applied to everything but [hypo_params]; the data set,
    the template maker and the minimizer settings do not change during
    the scan. *)
Variable evaluate : params → exn + gmap string (list pyval).

(** The rest of the loop body: the optimizer call,
    [steps['llh'].append(llh_data['llh'][-1])] and
    [results[data_tag][hypo_tag] = steps]. *)
Definition record_llh (st : state) : outcome :=
  let st := mk_state (hypo_params st) (steps st) (stored st)
              (calls st ++ [hypo_params st]) in
  match evaluate (hypo_params st) with
  | inl e => Raised e st
  | inr llh_data =>
      match steps st !! "llh" with
      | None => Raised (KeyError "llh") st
      | Some row =>
          match final_llh llh_data with
          | inl e => Raised e st
          | inr x =>
              Done (mk_state (hypo_params st) (<["llh" := row ++ [x]]> (steps st))
                      true (calls st))
          end
      end
  end.

(** One iteration of [for pos in product( *steplist)]. *)
Definition scan_point (pos : position) (st : state) : outcome :=
  let pos_dict := dict pos in
  and_then (fix_params (map_to_list pos_dict) st) record_llh.

Fixpoint scan_loop (points : list position) (st : state) : outcome :=
  match points with
  | [] => Done st
  | pos :: points => and_then (scan_point pos st) (scan_loop points)
  end.

(** [steps = {key:[] for key in atm_params.keys()}; steps['llh'] = []] *)
Definition init_steps (atm_params : params) : gmap string (list pyval) :=
  <["llh" := []]> ((λ _, []) <$> atm_params).

(** Lines 167-195 of the script: the step list, the empty accumulator and
    the loop over the product. *)
Definition run_scan (hypo_params0 atm_params : params) : outcome :=
  match steplist atm_params with
  | inl e => Raised e (mk_state hypo_params0 ∅ false [])
  | inr pools =>
      scan_loop (product pools)
        (mk_state hypo_params0 (init_steps atm_params) false [])
  end.
End ScanLoop.

(** ** The script *)

(** The template settings document: its ['params'] and ['binning']. *)
Module Template.
Record t (Binning : Type) : Type := mk {
params : gmap string Param.t;
binning : Binning
}.
Arguments mk {Binning} _ _.
Arguments params {Binning} _.
Arguments binning {Binning} _.
End Template.

(** The command line, as [parser.parse_args()] returns it. *)
Record args_t : Type := mk_args {
  data_nh : bool;
  hypo_nh : bool;
  save_steps : bool;
  gpu_id : option Z;
  outfile : string
}.

(** [data_tag] and [hypo_tag] *)
Definition data_tag_of (nh : bool) : string := if nh then "data_NH" else "data_IH".
Definition hypo_tag_of (nh : bool) : string := if nh then "hypo_NH" else "hypo_IH".

(** The workaround for old scipy versions:
    [minimizer_settings.pop('maxiter')] when the key is there. *)
Definition drop_maxiter {MinOpt} (scipy_old : bool)
    (minimizer_settings : gmap string MinOpt) : gmap string MinOpt :=
  if scipy_old then delete "maxiter" minimizer_settings else minimizer_settings.

(** [template_settings['params']['gpu_id'] = {'value': gpu_id, 'fixed': True}]
    when a GPU id is given. *)
Definition with_gpu_id {Binning} (gpu : option Z)
    (template_settings : Template.t Binning) : Template.t Binning :=
  match gpu with
  | None => template_settings
  | Some g =>
      Template.mk
        (<["gpu_id" := Param.mk (PyInt g) true None]>
           (Template.params template_settings))
        (Template.binning template_settings)
  end.

Section Script.
Context {Binning MinOpt Grid Values Hist TM : Type}.

(** The collaborators of [pisa] the script calls.  They are taken as
    functions that return new dictionaries, so that the writes of the scan
    to [hypo_params] do not reach [template_settings], and only the
    optimizer is followed into its failures.  The optimizer reads
    [hypo_params] and does not write to it. *)
Variable fix_atm_params : params → params.
Variable get_values : params → Values.
Variable TemplateMaker : Values → Binning → TM.
Variable select_hierarchy : params → bool → params.
Variable get_asimov_fmap : TM → Values → pyval → Hist.
Variable get_atm_params : params → params.
Variable calc_steps : params → Grid → params.
Variable find_opt_scipy :
Hist → TM → params → gmap string MinOpt → bool → bool →
exn + gmap string (list pyval).

(** What is stored under [results[data_tag]]. *)
Inductive dval : Type :=
| Asimov (h : Hist)
| Steps (acc : gmap string (list pyval)).

(** What is stored under the keys of [results]. *)
Inductive rval : Type :=
| TemplateSettings (ts : Template.t Binning)
| MinimizerSettings (ms : gmap string MinOpt)
| GridSettings (gs : gmap string Grid)
| Data (d : gmap string dval).

(** The calls that leave the script. *)
Inductive event : Type :=
| BuildAsimov (values : Values) (channel : pyval)
| Optimize (hp : params)
| ToFile (results : gmap string rval) (file : string).

Record run : Type := mk_run {
trace : list event;
raised : option exn
}.

(** The dictionary [results[data_tag]] when the script reaches
    [fileio.to_file]: the Asimov data and, once the loop body has bound
    [results[data_tag][hypo_tag]] to [steps], that accumulator as it stands
    at the end. *)
Definition data_entry (hypo_tag : string) (asimov_data_set : Hist)
  (st : state) : gmap string dval :=
let d := <["asimov_data" := Asimov asimov_data_set]> ∅ in
if stored st then <[hypo_tag := Steps (steps st)]> d else d.

(** The script from reading the settings to writing the results. *)
Definition main (args : args_t) (scipy_old : bool)
  (template_settings : Template.t Binning)
  (minimizer_settings : gmap string MinOpt)
  (grid_settings : gmap string Grid) : run :=
match Template.params template_settings !! "channel" with
| None => mk_run [] (Some (KeyError "channel"))
| Some channel_param =>
    let channel := Param.value channel_param in
    let minimizer_settings := drop_maxiter scipy_old minimizer_settings in
    let template_settings := with_gpu_id (gpu_id args) template_settings in
    let params := Template.params template_settings in
    let params := fix_atm_params params in
    let template_maker :=
      TemplateMaker (get_values params) (Template.binning template_settings) in
    let results : gmap string rval :=
      <["grid_settings" := GridSettings grid_settings]>
        (<["minimizer_settings" := MinimizerSettings minimizer_settings]>
           (<["template_settings" := TemplateSettings template_settings]> ∅)) in
    let data_tag := data_tag_of (data_nh args) in
    let data_normal := data_nh args in
    let hypo_tag := hypo_tag_of (hypo_nh args) in
    let hypo_normal := hypo_nh args in
    let data_params := select_hierarchy params data_normal in
    let asimov_data_set :=
      get_asimov_fmap template_maker (get_values data_params) channel in
    let built := BuildAsimov (get_values data_params) channel in
    let hypo_params := select_hierarchy params hypo_normal in
    let atm_params := get_atm_params hypo_params in
    match grid_settings !! "steps" with
    | None => mk_run [built] (Some (KeyError "steps"))
    | Some grid_steps =>
        let atm_params := calc_steps atm_params grid_steps in
        let evaluate hp :=
          find_opt_scipy asimov_data_set template_maker hp
            minimizer_settings (save_steps args) hypo_normal in
        match run_scan evaluate hypo_params atm_params with
        | Raised e st => mk_run (built :: (Optimize <$> calls st)) (Some e)
        | Done st =>
            let results :=
              <[data_tag := Data (data_entry hypo_tag asimov_data_set st)]>
                results in
            mk_run
              (built :: (Optimize <$> calls st)
                 ++ [ToFile results (outfile args)])
              None
        end
    end
end.
End Script.

(** * The vocabulary of the statements *)

(** ** Index vectors and positions *)

(** The index vectors below the given lengths, first index outermost. *)
Fixpoint index_grid (lens : list nat) : list (list nat) :=
  match lens with
  | [] => [[]]
  | n :: lens => seq 0 n ≫= λ i, (i ::.) <$> index_grid lens
  end.

(** The tuple that takes the [i]-th element of the pool at each place. *)
Fixpoint select {A} (pools : list (list A)) (idx : list nat) : option (list A) :=
  match pools, idx with
  | [], [] => Some []
  | pool :: pools, i :: idx =>
      y ← pool !! i; ys ← select pools idx; Some (y :: ys)
  | _, _ => None
  end.

(** The product of the lengths. *)
Definition volume (lens : list nat) : nat := foldr Nat.mul 1 lens.

(** The expanded value sequence of a parameter. *)
Definition step_values (p : Param.t) : list pyval := default [] (Param.steps p).

(** Every scanned parameter carries its ['steps']. *)
Definition has_steps (atm_params : params) : Prop :=
  map_Forall (λ _ p, is_Some (Param.steps p)) atm_params.

Definition pools_of (items : list (string * Param.t)) : list position :=
  (λ it, pair it.1 <$> step_values it.2) <$> items.

(** The position at an index vector: the [i]-th step of each parameter, in
    the order of the items. *)
Fixpoint point_at (items : list (string * Param.t)) (idx : list nat)
    : option position :=
  match items, idx with
  | [], [] => Some []
  | (name, p) :: items, i :: idx =>
      v ← step_values p !! i; pos ← point_at items idx; Some ((name, v) :: pos)
  | _, _ => None
  end.

(** The positions the loop iterates over, when every scanned parameter has
    its step list. *)
Definition grid_points (atm_params : params) : list position :=
  product (pools_of (sorted_items atm_params)).

(** The lengths of the step lists, in the order of the sorted names. *)
Definition grid_shape (atm_params : params) : list nat :=
  (λ it, length (step_values it.2)) <$> sorted_items atm_params.

(** ** Positions laid over the dictionaries *)

(** [overlay f d m] applies [f v] to the entry of [m] under every key that
    [d] binds to a [v], and leaves the other entries alone. *)
Definition overlay {A} (f : pyval → A → A) (d : gmap string pyval)
    (m : gmap string A) : gmap string A :=
  map_imap (λ k x, Some (from_option (λ v, f v x) x (d !! k))) m.

(** The parameters after [hypo_params[k]['value'] = v] for every pair of a
    position. *)
Definition fixed_at (d : gmap string pyval) (hp : params) : params :=
  overlay Param.set_value d hp.

(** The accumulator after [steps[k].append(v)] for every pair of a
    position. *)
Definition appended (d : gmap string pyval) (acc : gmap string (list pyval))
    : gmap string (list pyval) :=
  overlay (λ v row, row ++ [v]) d acc.

(** What [find_opt_scipy] is handed at a position, when the scan started
    from [hp0]. *)
Definition snapshot (hp0 : params) (pos : position) : params :=
  fixed_at (dict pos) hp0.

(** ** The state after a run of positions *)

(** The values a parameter took over the positions processed so far. *)
Definition column (k : string) (done : list position) : list pyval :=
  omap (λ pos, dict pos !! k) done.

(** The accumulator after the positions [done], with the likelihoods
    [llhs] recorded. *)
Definition rows (atm_params : params) (done : list position)
    (llhs : list pyval) : gmap string (list pyval) :=
  <["llh" := llhs]> (map_imap (λ k _, Some (column k done)) atm_params).

(** The parameters after the positions [done]: those of the last one. *)
Definition current (hp0 : params) (done : list position) : params :=
  from_option (snapshot hp0) hp0 (last done).

Definition state_after (hp0 atm_params : params) (done : list position)
    (llhs : list pyval) : state :=
  mk_state (current hp0 done) (rows atm_params done llhs)
    (bool_decide (done ≠ [])) (snapshot hp0 <$> done).

(** The state the loop starts from. *)
Definition initial_state (hp0 atm_params : params) : state :=
  mk_state hp0 (init_steps atm_params) false [].

(** A position of the grid binds exactly the scanned names. *)
Definition on_grid (atm_params : params) (pos : position) : Prop :=
  dom (dict pos) = dom atm_params.

(** The state an outcome ends in. *)
Definition final_state (o : outcome) : state :=
  match o with
  | Done st => st
  | Raised _ st => st
  end.

(** ** The optimizer and the flags *)

(** What the driver takes from one optimizer call: the exception it raises,
    or the last likelihood of its trajectory. *)
Definition verdict (evaluate : params → exn + gmap string (list pyval))
    (hp : params) : exn + pyval :=
  match evaluate hp with
  | inl e => inl e
  | inr llh_data => final_llh llh_data
  end.

(** The optimizer answers with a non-empty likelihood trajectory at every
    position of the grid. *)
Definition succeeds_on (evaluate : params → exn + gmap string (list pyval))
    (hp0 atm_params : params) : Prop :=
  ∀ pos, pos ∈ grid_points atm_params →
    ∃ x, verdict evaluate (snapshot hp0 pos) = inr x.

(** The [fixed] flag of every parameter. *)
Definition flags (hp : params) : gmap string bool := Param.fixed <$> hp.

(** [st] follows [st0]: same flags, and the calls added since [st0] were
    all handed parameters with the flags of [st0]. *)
Definition flags_kept (st0 st : state) : Prop :=
  flags (hypo_params st) = flags (hypo_params st0) ∧
  ∃ added, calls st = calls st0 ++ added ∧
    Forall (λ hp, flags hp = flags (hypo_params st0)) added.

(** ** What a run of the script wrote *)

(** The template settings and the minimizer settings stored in the
    results, if any. *)
Definition stored_template {Binning MinOpt Grid Hist : Type}
    (results : gmap string (@rval Binning MinOpt Grid Hist))
    : option (Template.t Binning) :=
  match results !! "template_settings" with
  | Some (TemplateSettings ts) => Some ts
  | _ => None
  end.

Definition stored_minimizer {Binning MinOpt Grid Hist : Type}
    (results : gmap string (@rval Binning MinOpt Grid Hist))
    : option (gmap string MinOpt) :=
  match results !! "minimizer_settings" with
  | Some (MinimizerSettings ms) => Some ms
  | _ => None
  end.

(** The results a run wrote with [fileio.to_file], if it did. *)
Definition written {Binning MinOpt Grid Values Hist : Type}
    (r : @run Binning MinOpt Grid Values Hist)
    : option (gmap string (@rval Binning MinOpt Grid Hist)) :=
  match last (trace r) with
  | Some (ToFile results _) => Some results
  | _ => None
  end.

(** * Scenarios *)

(** ** A two-parameter scan *)

(** [theta23] over (0.35, 0.65) in 3 steps and [deltam31] over
    (0.002, 0.003) in 2 steps, both fixed by [fix_atm_params]. *)
Definition theta23 : Param.t :=
  Param.mk (PyFloat 0.42%float) true
    (Some [PyFloat 0.35%float; PyFloat 0.5%float; PyFloat 0.65%float]).

Definition deltam31 : Param.t :=
  Param.mk (PyFloat 0.0025%float) true
    (Some [PyFloat 0.002%float; PyFloat 0.003%float]).

(** A nuisance parameter, which the scan leaves to the optimizer. *)
Definition aeff_scale : Param.t := Param.mk (PyFloat 1%float) false None.

Definition atm2 : params :=
  <["theta23" := theta23]> (<["deltam31" := deltam31]> ∅).

Definition hypo2 : params := <["aeff_scale" := aeff_scale]> atm2.

(** The scan of the two parameters when nothing has fixed them. *)
Definition hypo2_free : params :=
  (λ p, Param.mk (Param.value p) false (Param.steps p)) <$> hypo2.

(** A scan over [theta23] alone, with no step to take. *)
Definition atm_no_steps : params :=
  <["theta23" := Param.mk (PyFloat 0.42%float) true (Some [])]> ∅.

(** The six positions of the two-parameter scan, in the order the loop
    takes them: [deltam31] sorts before [theta23], so [theta23] varies
    fastest. *)
Definition scan_order2 : list position :=
  [ [("deltam31", PyFloat 0.002%float); ("theta23", PyFloat 0.35%float)];
    [("deltam31", PyFloat 0.002%float); ("theta23", PyFloat 0.5%float)];
    [("deltam31", PyFloat 0.002%float); ("theta23", PyFloat 0.65%float)];
    [("deltam31", PyFloat 0.003%float); ("theta23", PyFloat 0.35%float)];
    [("deltam31", PyFloat 0.003%float); ("theta23", PyFloat 0.5%float)];
    [("deltam31", PyFloat 0.003%float); ("theta23", PyFloat 0.65%float)] ].

(** The order the specification's example expects: [deltam31] fastest. *)
Definition spec_order2 : list position :=
  [ [("theta23", PyFloat 0.35%float); ("deltam31", PyFloat 0.002%float)];
    [("theta23", PyFloat 0.35%float); ("deltam31", PyFloat 0.003%float)];
    [("theta23", PyFloat 0.5%float); ("deltam31", PyFloat 0.002%float)];
    [("theta23", PyFloat 0.5%float); ("deltam31", PyFloat 0.003%float)];
    [("theta23", PyFloat 0.65%float); ("deltam31", PyFloat 0.002%float)];
    [("theta23", PyFloat 0.65%float); ("deltam31", PyFloat 0.003%float)] ].

(** The second position of the two-parameter scan. *)
Definition second_position : position :=
  [("deltam31", PyFloat 0.002%float); ("theta23", PyFloat 0.5%float)].

(** Whether a value is the float [0.5]. *)
Definition is_half (v : pyval) : bool :=
  match v with
  | PyFloat f => PrimFloat.eqb f 0.5%float
  | _ => false
  end.

(** ** Optimizers *)

(** An optimizer that converges everywhere, to the same likelihood. *)
Definition steady (hp : params) : exn + gmap string (list pyval) :=
  inr (<["llh" := [PyFloat 12.5%float; PyFloat 10.25%float]]> ∅).

(** An optimizer whose trajectory ends in a NaN everywhere. *)
Definition diverging (hp : params) : exn + gmap string (list pyval) :=
  inr (<["llh" := [PyFloat 3.5%float; PyFloat nan]]> ∅).

(** An optimizer that raises where [theta23] is [0.5] and converges
    elsewhere. *)
Definition crashing_at_half (hp : params) : exn + gmap string (list pyval) :=
  match hp !! "theta23" with
  | Some p =>
      if is_half (Param.value p)
      then inl (EvaluatorError "no convergence")
      else steady hp
  | None => steady hp
  end.


(** ** A run of the whole script *)

(** Stand-ins for the collaborators, enough to run the script: the
    atmospheric parameters are [theta23] and [deltam31] and the optimizer
    is [steady]. *)
Definition demo_is_atm (k : string) : bool :=
  bool_decide (k = "theta23" ∨ k = "deltam31").

Definition demo_fix_atm_params (ps : params) : params :=
  map_imap (λ k p,
    Some (if demo_is_atm k
          then Param.mk (Param.value p) true (Param.steps p) else p)) ps.

Definition demo_get_values (ps : params) : gmap string pyval :=
  Param.value <$> ps.

Definition demo_get_atm_params (ps : params) : params :=
  filter (λ kp, demo_is_atm kp.1 = true) ps.

(** Modelled from the spec: [calc_steps] of [pisa.analysis.scan.Scan] is
    not among the sources.  The spec's Step Expander gives every scanned
    parameter an ordered sequence of at least one value ([steps] must be
    at least 1, or an explicit step specification); the stand-in is handed
    that sequence, its first value and the rest, and stores it as the
    ['steps'] of every scanned parameter. *)
Definition demo_calc_steps (atm_params : params)
    (grid : pyval * list pyval) : params :=
  (λ p, Param.mk (Param.value p) (Param.fixed p) (Some (grid.1 :: grid.2)))
    <$> atm_params.

Definition demo_main (scipy_old : bool) (args : args_t)
    (template_settings : Template.t unit)
    (minimizer_settings : gmap string pyval)
    (grid_settings : gmap string (pyval * list pyval)) :=
  main demo_fix_atm_params demo_get_values (λ values _, values)
    (λ ps _, ps) (λ _ values _, values) demo_get_atm_params demo_calc_steps
    (λ _ _ hp _ _ _, steady hp)
    args scipy_old template_settings minimizer_settings grid_settings.

(** The command line [--data-nh --hypo-nh --gpu_id 0]. *)
Definition demo_args : args_t :=
  mk_args true true false (Some 0%Z) "llh_data.json".

Definition demo_template : Template.t unit :=
  Template.mk
    (<["channel" := Param.mk (PyStr "all") true None]>
       (<["theta23" := Param.mk (PyFloat 0.42%float) false None]>
          (<["aeff_scale" := aeff_scale]> ∅)))
    tt.

Definition demo_minimizer : gmap string pyval := <["maxiter" := PyInt 50]> ∅.

(** Grid settings that ask for the two steps 0.35 and 0.65. *)
Definition demo_grid_two : gmap string (pyval * list pyval) :=
  <["steps" := (PyFloat 0.35%float, [PyFloat 0.65%float])]> ∅.

(** The template settings with GPU 0 written into them, and the parameters
    and the grid of the demonstration run. *)
Definition demo_template_gpu : Template.t unit :=
  Template.mk
    (<["gpu_id" := Param.mk (PyInt 0) true None]> (Template.params demo_template))
    tt.

Definition demo_hypo : params :=
  demo_fix_atm_params (Template.params demo_template_gpu).

Definition demo_atm : params :=
  demo_calc_steps (demo_get_atm_params demo_hypo)
    (PyFloat 0.35%float, [PyFloat 0.65%float]).

(** * The vocabulary of the further properties *)

(** ** Places in the rows *)

(** The place of an index vector in the enumeration of the grid: the
    first index counts blocks of the volume of the rest (row-major order). *)
Fixpoint rank (lens idx : list nat) : nat :=
  match lens, idx with
  | _ :: lens, i :: idx => i * volume lens + rank lens idx
  | _, _ => 0
  end.

(** The tuple of the last elements of the pools. *)
Fixpoint select_last {A} (pools : list (list A)) : option (list A) :=
  match pools with
  | [] => Some []
  | pool :: pools => y ← last pool; ys ← select_last pools; Some (y :: ys)
  end.

(** ** The version test *)

(** [scipy.__version__ < '0.12.0']: the two strings are compared character
    by character. *)
Definition scipy_is_old (version : string) : bool :=
  String.ltb version "0.12.0".

(** ** Events and rows *)



(** The accumulator [acc'] has the keys of [acc], and every row of [acc]
    with more values after it. *)
Definition rows_extend (acc acc' : gmap string (list pyval)) : Prop :=
  dom acc' = dom acc ∧
  ∀ k row, acc !! k = Some row → ∃ more, acc' !! k = Some (row ++ more).

(** A scan whose only parameter is itself called [llh]. *)
Definition atm_llh : params :=
  <["llh" := Param.mk (PyFloat 1%float) true
               (Some [PyFloat 1%float; PyFloat 2%float; PyFloat 3%float])]> ∅.

(** The state of a scan with a parameter called [llh] after [n] positions:
    the row of [llh] has two values per position, the other rows one. *)
Definition doubled (hp0 atm_params : params) (n : nat) (st : state) : Prop :=
  dom (hypo_params st) = dom hp0 ∧ dom (steps st) = dom atm_params ∧
  ∀ k row, steps st !! k = Some row →
    length row = if bool_decide (k = "llh") then 2 * n else n.

(** * Properties of the enumeration *)

Section Enumeration.
Context {A : Type}.
Implicit Types (pool : list A) (pools : list (list A)).

Lemma foldl_product_step pools (result : list (list A)) :
  foldl product_step result pools
  = result ≫= λ x, (x ++.) <$> nested_loops pools.
Proof.
  revert result. induction pools as [|pool pools IH]; intros result; simpl.
  - induction result as [|x result IHr]; [done|].
    rewrite bind_cons, <-IHr. simpl. by rewrite app_nil_r.
  - rewrite IH. unfold product_step.
    induction result as [|x result IHr]; [done|].
    rewrite !bind_cons, bind_app, IHr. f_equal.
    clear IHr IH. induction pool as [|y pool IHp]; [done|].
    rewrite fmap_cons, !bind_cons, fmap_app, IHp. f_equal.
    rewrite <-list_fmap_compose. apply list_fmap_ext.
    intros _ ys _. simpl. by rewrite <-app_assoc.
Qed.

(** [itertools.product] runs the pools as nested loops, the first pool
    outermost. *)
Lemma product_nested_loops pools : product pools = nested_loops pools.
Proof.
  unfold product. rewrite foldl_product_step. simpl.
  rewrite app_nil_r. apply list_fmap_id.
Qed.

Lemma length_bind_const {B C} (f : B → list C) (l : list B) n :
  (∀ x, length (f x) = n) → length (l ≫= f) = length l * n.
Proof.
  intros Hf. induction l as [|x l IH]; [done|].
  rewrite bind_cons, length_app, IH, Hf. simpl. lia.
Qed.

Lemma length_nested_loops pools :
  length (nested_loops pools) = volume (length <$> pools).
Proof.
  induction pools as [|pool pools IH]; [done|]. simpl.
  rewrite (length_bind_const _ _ (length (nested_loops pools))).
  - by rewrite IH.
  - intros y. by rewrite length_fmap.
Qed.

Lemma Forall2_lookup_seq pool :
  Forall2 (λ y i, pool !! i = Some y) pool (seq 0 (length pool)).
Proof.
  induction pool as [|y pool IH] using rev_ind; [constructor|].
  rewrite length_app. simpl. rewrite Nat.add_1_r, seq_S. simpl.
  apply Forall2_app.
  - eapply Forall2_impl; [exact IH|]. intros y' i Hi.
    rewrite lookup_app_l; [done|]. by apply lookup_lt_Some in Hi.
  - constructor; [|constructor]. by rewrite list_lookup_middle.
Qed.

(** The tuples of the nested loops are, place by place, the selections
    along the index vectors. *)
Lemma nested_loops_select pools :
  Forall2 (λ t idx, select pools idx = Some t)
    (nested_loops pools) (index_grid (length <$> pools)).
Proof.
  induction pools as [|pool pools IH]; simpl.
  - by repeat constructor.
  - apply Forall2_bind.
    eapply Forall2_impl; [apply Forall2_lookup_seq|].
    intros y i Hy. apply Forall2_fmap.
    eapply Forall2_impl; [exact IH|]. intros t idx Ht. simpl.
    by rewrite Hy, Ht.
Qed.
End Enumeration.

Lemma elem_of_index_grid lens idx :
  idx ∈ index_grid lens ↔ Forall2 lt idx lens.
Proof.
  revert idx. induction lens as [|n lens IH]; intros idx; simpl.
  - rewrite list_elem_of_singleton. split; [intros ->; constructor|].
    by intros ->%Forall2_nil_inv_r.
  - rewrite list_elem_of_bind. split.
    + intros (i & Hidx & Hi). apply list_elem_of_fmap in Hidx as (idx' & -> & Hidx').
      constructor; [|by apply IH].
      apply elem_of_seq in Hi. lia.
    + intros Hall. destruct idx as [|i idx]; [by inversion Hall|].
      apply Forall2_cons in Hall as [Hi Hall].
      exists i. split.
      * apply list_elem_of_fmap. exists idx. split; [done|]. by apply IH.
      * apply elem_of_seq. lia.
Qed.

Lemma index_grid_sorted lens : StronglySorted lexico (index_grid lens).
Proof.
  induction lens as [|n lens IH]; simpl; [repeat constructor|].
  generalize 0. induction n as [|n IHn]; intros start; [constructor|].
  cbn [seq]. rewrite bind_cons. apply StronglySorted_app. split_and!.
  - intros x1 x2 (idx1 & -> & _)%list_elem_of_fmap
      (j & (idx2 & -> & _)%list_elem_of_fmap & Hj%elem_of_seq)%list_elem_of_bind.
    left. simpl. unfold lexico, nat_lexico. lia.
  - apply StronglySorted_fmap with (R1 := lexico); [|done].
    intros idx1 idx2 Hlt. right. done.
  - apply IHn.
Qed.

(** ** The sorted items and the step list *)

Global Instance item_le_total {A} : Total (@item_le A).
Proof. intros x y. unfold item_le. apply (total String.le). Qed.

Global Instance item_le_trans {A} : Transitive (@item_le A).
Proof. intros x y z. unfold item_le. apply (transitivity (R := String.le)). Qed.

Lemma sorted_items_perm {A} (m : gmap string A) :
  sorted_items m ≡ₚ map_to_list m.
Proof. apply merge_sort_Permutation. Qed.

Lemma elem_of_sorted_items {A} (m : gmap string A) k x :
  (k, x) ∈ sorted_items m ↔ m !! k = Some x.
Proof. by rewrite sorted_items_perm, elem_of_map_to_list. Qed.

Lemma sorted_items_NoDup {A} (m : gmap string A) :
  NoDup (sorted_items m).*1.
Proof. rewrite sorted_items_perm. apply NoDup_fst_map_to_list. Qed.

Lemma StronglySorted_strict {A} (R : relation A) `{!AntiSymm (=) R} l :
  StronglySorted R l → NoDup l → StronglySorted (strict R) l.
Proof.
  induction 1 as [|x l Hl IH Hx]; intros Hnd; [constructor|].
  apply NoDup_cons in Hnd as [Hnotin Hnd].
  constructor; [by apply IH|].
  apply Forall_forall. intros y Hy. split.
  - by eapply Forall_forall in Hx.
  - intros Hyx. eapply Forall_forall in Hx; [|done].
    assert (x = y) as -> by by apply (anti_symm R). done.
Qed.

(** The names come out in strictly increasing order of their characters. *)
Lemma sorted_items_names_sorted {A} (m : gmap string A) :
  StronglySorted (strict String.le) (sorted_items m).*1.
Proof.
  apply StronglySorted_strict; [apply _| |apply sorted_items_NoDup].
  apply StronglySorted_fmap with (R1 := item_le); [done|].
  apply StronglySorted_merge_sort; apply _.
Qed.

Lemma steplist_of_pools items :
  Forall (λ it, is_Some (Param.steps it.2)) items →
  steplist_of items = inr (pools_of items).
Proof.
  induction 1 as [|[name p] items [l Hl] _ IH]; [done|].
  simpl in *. unfold name_steps, step_values. by rewrite Hl, IH.
Qed.

Lemma steplist_pools atm_params :
  has_steps atm_params →
  steplist atm_params = inr (pools_of (sorted_items atm_params)).
Proof.
  intros Hs. apply steplist_of_pools, Forall_forall.
  intros [k p] Hkp%elem_of_sorted_items. by apply (Hs k p).
Qed.

Lemma select_pools_of items idx :
  select (pools_of items) idx = point_at items idx.
Proof.
  revert idx. induction items as [|[name p] items IH]; intros [|i idx]; try done.
  simpl. rewrite list_lookup_fmap, IH.
  by destruct (step_values p !! i).
Qed.

Lemma point_at_names items idx pos :
  point_at items idx = Some pos → pos.*1 = items.*1.
Proof.
  revert idx pos.
  induction items as [|[name p] items IH]; intros [|i idx] pos Hpos;
    simplify_option_eq; [done|].
  f_equal. by eapply IH.
Qed.

Lemma length_pools_of items :
  length <$> pools_of items = (λ it, length (step_values it.2)) <$> items.
Proof.
  unfold pools_of. rewrite <-list_fmap_compose. apply list_fmap_ext.
  intros _ it _. simpl. by rewrite length_fmap.
Qed.

(** * Properties of the scan loop *)

(** ** Dictionaries of positions *)

Lemma dict_snoc {A} (l : list (string * A)) k x :
  dict (l ++ [(k, x)]) = <[k := x]> (dict l).
Proof. unfold dict. by rewrite foldl_snoc. Qed.

Lemma dom_dict {A} (l : list (string * A)) :
  dom (dict l) = list_to_set l.*1.
Proof.
  induction l as [|[k x] l IH] using rev_ind; [set_solver|].
  rewrite dict_snoc, dom_insert_L, IH, fmap_app, list_to_set_app_L.
  set_solver.
Qed.

Lemma dict_list_to_map {A} (l : list (string * A)) :
  NoDup l.*1 → dict l = list_to_map l.
Proof.
  induction l as [|[k x] l IH] using rev_ind; [done|].
  rewrite fmap_app, NoDup_app. intros (Hl & Hk & _).
  rewrite dict_snoc, list_to_map_snoc, IH; [done..|].
  intros Hin. apply (Hk k Hin). simpl. apply list_elem_of_here.
Qed.

Lemma dict_lookup {A} (l : list (string * A)) k x :
  NoDup l.*1 → dict l !! k = Some x ↔ (k, x) ∈ l.
Proof.
  intros Hnd. rewrite dict_list_to_map by done.
  by rewrite <-elem_of_list_to_map.
Qed.

(** ** Overlaying a position on a dictionary *)

Section Overlay.
Context {A : Type} (f : pyval → A → A).
Implicit Types (d : gmap string pyval) (m : gmap string A).

Lemma overlay_lookup d m k :
  overlay f d m !! k = (λ x, from_option (λ v, f v x) x (d !! k)) <$> m !! k.
Proof. unfold overlay. rewrite map_lookup_imap. by destruct (m !! k). Qed.

Lemma overlay_empty m : overlay f ∅ m = m.
Proof.
  apply map_eq. intros k. rewrite overlay_lookup, lookup_empty.
  by destruct (m !! k).
Qed.

Lemma dom_overlay d m : dom (overlay f d m) = dom m.
Proof.
  apply set_eq. intros k. rewrite !elem_of_dom, overlay_lookup.
  by rewrite fmap_is_Some.
Qed.

Lemma overlay_insert d m k v x :
  m !! k = Some x → d !! k = None →
  overlay f d (<[k := f v x]> m) = overlay f (<[k := v]> d) m.
Proof.
  intros Hm Hd. apply map_eq. intros i. rewrite !overlay_lookup.
  destruct (decide (i = k)) as [->|Hne].
  - by rewrite !lookup_insert_eq, Hm, Hd.
  - by rewrite !lookup_insert_ne.
Qed.

Lemma overlay_overlay d d' m :
  (∀ v v' x, f v' (f v x) = f v' x) → dom d ⊆ dom d' →
  overlay f d' (overlay f d m) = overlay f d' m.
Proof.
  intros Hf Hdom. apply map_eq. intros k. rewrite !overlay_lookup.
  destruct (m !! k) as [x|]; [simpl|done]. f_equal.
  destruct (d !! k) as [v|] eqn:Hd; [|done].
  assert (k ∈ dom d') as [v' ->]%elem_of_dom by (apply Hdom; by apply elem_of_dom).
  simpl. apply Hf.
Qed.
End Overlay.

Lemma fix_params_spec items st :
  NoDup items.*1 →
  list_to_set items.*1 ⊆ dom (hypo_params st) ∩ dom (steps st) →
  fix_params items st
  = Done (mk_state (fixed_at (list_to_map items) (hypo_params st))
            (appended (list_to_map items) (steps st)) (stored st) (calls st)).
Proof.
  revert st. induction items as [|[k v] items IH]; intros [hp acc b cs] Hnd Hdom.
  - simpl. unfold fixed_at, appended. by rewrite !overlay_empty.
  - simpl in *. apply NoDup_cons in Hnd as [Hk Hnd].
    assert (k ∈ dom hp) as [p Hp]%elem_of_dom by set_solver.
    assert (k ∈ dom acc) as [row Hrow]%elem_of_dom by set_solver.
    unfold fix_param. simpl. rewrite Hp, Hrow. simpl.
    rewrite IH; simpl; [|done|rewrite !dom_insert_L; set_solver].
    assert ((list_to_map items : gmap string pyval) !! k = None) as Hnone
      by by apply not_elem_of_list_to_map.
    unfold fixed_at, appended. do 2 f_equal.
    + by apply overlay_insert.
    + by apply (overlay_insert (λ v row, row ++ [v])).
Qed.

(** ** The state after a run of positions *)

Lemma Forall_snoc_inv {A} (P : A → Prop) l x :
  Forall P (l ++ [x]) → Forall P l ∧ P x.
Proof. rewrite Forall_app, Forall_singleton. tauto. Qed.

Lemma set_value_twice v v' p :
  Param.set_value v' (Param.set_value v p) = Param.set_value v' p.
Proof. done. Qed.

Lemma scan_loop_app evaluate l1 l2 st :
  scan_loop evaluate (l1 ++ l2) st
  = and_then (scan_loop evaluate l1 st) (scan_loop evaluate l2).
Proof.
  revert st. induction l1 as [|pos l1 IH]; intros st; [done|].
  simpl. destruct (scan_point evaluate pos st); simpl; [apply IH|done].
Qed.

Section Accumulation.
Variable evaluate : params → exn + gmap string (list pyval).
Variables hp0 atm_params : params.
Hypothesis llh_reserved : atm_params !! "llh" = None.
Hypothesis atm_in_hypo : dom atm_params ⊆ dom hp0.

Lemma rows_nil : rows atm_params [] [] = init_steps atm_params.
Proof.
  unfold rows, init_steps. f_equal. apply map_eq. intros k.
  rewrite map_lookup_imap, lookup_fmap. by destruct (atm_params !! k).
Qed.

Lemma rows_lookup_llh done llhs : rows atm_params done llhs !! "llh" = Some llhs.
Proof. apply lookup_insert_eq. Qed.

Lemma rows_lookup done llhs k :
  k ≠ "llh" →
  rows atm_params done llhs !! k
  = (λ _, column k done) <$> atm_params !! k.
Proof.
  intros Hk. unfold rows. rewrite lookup_insert_ne, map_lookup_imap by done.
  by destruct (atm_params !! k).
Qed.

Lemma dom_rows done llhs :
  dom (rows atm_params done llhs) = {["llh"]} ∪ dom atm_params.
Proof.
  unfold rows. rewrite dom_insert_L. f_equal.
  apply set_eq. intros k. rewrite !elem_of_dom, map_lookup_imap.
  destruct (atm_params !! k); simpl; by rewrite ?is_Some_alt.
Qed.

Lemma appended_rows pos done llhs :
  on_grid atm_params pos →
  appended (dict pos) (rows atm_params done llhs)
  = rows atm_params (done ++ [pos]) llhs.
Proof.
  intros Hpos. apply map_eq. intros k. unfold appended.
  rewrite overlay_lookup. destruct (decide (k = "llh")) as [->|Hk].
  - rewrite !rows_lookup_llh. simpl.
    assert (dict pos !! "llh" = None) as ->; [|done].
    apply not_elem_of_dom. rewrite Hpos. by apply not_elem_of_dom.
  - rewrite !rows_lookup by done.
    destruct (atm_params !! k) as [p|] eqn:Hp; [simpl|done].
    assert (k ∈ dom (dict pos)) as [v Hv]%elem_of_dom
      by (rewrite Hpos; by apply elem_of_dom).
    unfold column. rewrite omap_app. simpl. by rewrite Hv.
Qed.

Lemma fixed_at_current pos done :
  Forall (on_grid atm_params) done → on_grid atm_params pos →
  fixed_at (dict pos) (current hp0 done) = snapshot hp0 pos.
Proof.
  intros Hdone Hpos. unfold current.
  destruct (last done) as [pos'|] eqn:Hlast; [simpl|done].
  apply overlay_overlay; [apply set_value_twice|].
  apply last_Some in Hlast as [done' ->].
  apply Forall_snoc_inv in Hdone as [_ Hpos'].
  unfold on_grid in *. by rewrite Hpos, Hpos'.
Qed.

Lemma dom_current done : dom (current hp0 done) = dom hp0.
Proof.
  unfold current. destruct (last done); [simpl|done].
  apply dom_overlay.
Qed.

(** The inner loop of one iteration: every scanned parameter takes the
    value of the position, and every parameter row grows by one. *)
Lemma scan_point_fixes pos done llhs :
  Forall (on_grid atm_params) done → on_grid atm_params pos →
  scan_point evaluate pos (state_after hp0 atm_params done llhs)
  = record_llh evaluate
      (mk_state (snapshot hp0 pos) (rows atm_params (done ++ [pos]) llhs)
         (bool_decide (done ≠ [])) (snapshot hp0 <$> done)).
Proof.
  intros Hdone Hpos. unfold scan_point.
  rewrite fix_params_spec; simpl.
  - rewrite list_to_map_to_list, fixed_at_current, appended_rows; done.
  - apply NoDup_fst_map_to_list.
  - rewrite dom_current, dom_rows.
    assert (list_to_set (map_to_list (dict pos)).*1 = dom (dict pos)) as ->.
    { rewrite <-(list_to_map_to_list (dict pos)) at 2.
      by rewrite dom_list_to_map_L. }
    rewrite Hpos. set_solver.
Qed.

Lemma scan_point_done pos done llhs x :
  Forall (on_grid atm_params) done → on_grid atm_params pos →
  verdict evaluate (snapshot hp0 pos) = inr x →
  scan_point evaluate pos (state_after hp0 atm_params done llhs)
  = Done (state_after hp0 atm_params (done ++ [pos]) (llhs ++ [x])).
Proof.
  intros Hdone Hpos Hx. rewrite scan_point_fixes by done.
  unfold record_llh, verdict in *. simpl.
  destruct (evaluate (snapshot hp0 pos)) as [e|llh_data]; [done|].
  rewrite rows_lookup_llh, Hx. unfold state_after, current, rows.
  rewrite insert_insert_eq, last_snoc, fmap_snoc. simpl.
  do 2 f_equal. symmetry. apply bool_decide_eq_true.
  by destruct done.
Qed.

(** When the optimizer call of a position fails, the script stops there:
    the parameter rows already hold the position, the likelihood row
    does not. *)
Lemma scan_point_raised pos done llhs e :
  Forall (on_grid atm_params) done → on_grid atm_params pos →
  verdict evaluate (snapshot hp0 pos) = inl e →
  scan_point evaluate pos (state_after hp0 atm_params done llhs)
  = Raised e
      (mk_state (snapshot hp0 pos) (rows atm_params (done ++ [pos]) llhs)
         (bool_decide (done ≠ [])) (snapshot hp0 <$> (done ++ [pos]))).
Proof.
  intros Hdone Hpos He. rewrite scan_point_fixes by done.
  unfold record_llh, verdict in *. simpl. rewrite fmap_snoc.
  destruct (evaluate (snapshot hp0 pos)) as [e'|llh_data]; [by simplify_eq|].
  by rewrite rows_lookup_llh, He.
Qed.

Lemma scan_loop_done todo : ∀ done llhs xs,
  Forall (on_grid atm_params) (done ++ todo) →
  Forall2 (λ pos x, verdict evaluate (snapshot hp0 pos) = inr x) todo xs →
  scan_loop evaluate todo (state_after hp0 atm_params done llhs)
  = Done (state_after hp0 atm_params (done ++ todo) (llhs ++ xs)).
Proof.
  induction todo as [|pos todo IH]; intros done llhs xs Hgrid Hxs.
  - apply Forall2_nil_inv_l in Hxs as ->. by rewrite !app_nil_r.
  - apply Forall2_cons_inv_l in Hxs as (x & xs' & Hx & Hxs & ->).
    rewrite cons_middle, (assoc_L (++)) in Hgrid.
    pose proof Hgrid as [[Hdone Hpos]%Forall_snoc_inv _]%Forall_app.
    simpl. rewrite (scan_point_done _ _ _ x) by done. simpl.
    rewrite (IH _ _ xs') by done.
    by rewrite <-!(assoc_L (++)).
Qed.

Lemma scan_loop_raised todo pos rest done llhs xs e :
  Forall (on_grid atm_params) (done ++ todo ++ [pos]) →
  Forall2 (λ pos x, verdict evaluate (snapshot hp0 pos) = inr x) todo xs →
  verdict evaluate (snapshot hp0 pos) = inl e →
  scan_loop evaluate (todo ++ pos :: rest) (state_after hp0 atm_params done llhs)
  = Raised e
      (mk_state (snapshot hp0 pos)
         (rows atm_params (done ++ todo ++ [pos]) (llhs ++ xs))
         (bool_decide (done ++ todo ≠ []))
         (snapshot hp0 <$> (done ++ todo ++ [pos]))).
Proof.
  intros Hgrid Hxs He. rewrite (assoc_L (++)) in Hgrid.
  apply Forall_snoc_inv in Hgrid as [Hgrid Hpos].
  rewrite scan_loop_app, (scan_loop_done _ _ _ xs) by done. simpl.
  rewrite (scan_point_raised _ _ _ e) by done. simpl.
  by rewrite !(assoc_L (++)).
Qed.
End Accumulation.

(** ** The positions of the grid *)

Lemma grid_points_point_at atm_params :
  Forall2 (λ pos idx, point_at (sorted_items atm_params) idx = Some pos)
    (grid_points atm_params) (index_grid (grid_shape atm_params)).
Proof.
  unfold grid_points, grid_shape.
  rewrite product_nested_loops, <-length_pools_of.
  eapply Forall2_impl; [apply nested_loops_select|].
  intros pos idx Hsel. simpl in Hsel. by rewrite <-select_pools_of.
Qed.

Lemma length_grid_points atm_params :
  length (grid_points atm_params) = volume (grid_shape atm_params).
Proof.
  unfold grid_points, grid_shape.
  by rewrite product_nested_loops, length_nested_loops, length_pools_of.
Qed.

Lemma sorted_names_dom {A} (m : gmap string A) :
  list_to_set (sorted_items m).*1 = dom m.
Proof.
  apply set_eq. intros k.
  rewrite elem_of_list_to_set, list_elem_of_fmap, elem_of_dom. split.
  - intros ([k' x] & -> & Hin%elem_of_sorted_items). by exists x.
  - intros [x Hx]. exists (k, x). by rewrite elem_of_sorted_items.
Qed.

Lemma grid_points_names atm_params :
  Forall (λ pos, pos.*1 = (sorted_items atm_params).*1) (grid_points atm_params).
Proof.
  eapply Forall2_Forall_l; [apply grid_points_point_at|].
  apply Forall_forall. intros idx _ pos. apply point_at_names.
Qed.

Lemma grid_points_on_grid atm_params :
  Forall (on_grid atm_params) (grid_points atm_params).
Proof.
  eapply Forall_impl; [apply grid_points_names|].
  intros pos Hpos. unfold on_grid.
  by rewrite dom_dict, Hpos, sorted_names_dom.
Qed.

Lemma run_scan_grid evaluate hp0 atm_params :
  has_steps atm_params →
  run_scan evaluate hp0 atm_params
  = scan_loop evaluate (grid_points atm_params)
      (state_after hp0 atm_params [] []).
Proof.
  intros Hs. unfold run_scan. rewrite steplist_pools by done.
  unfold state_after. by rewrite rows_nil.
Qed.

(** ** Columns of the accumulator *)

Lemma length_column atm_params done k :
  Forall (on_grid atm_params) done → k ∈ dom atm_params →
  length (column k done) = length done.
Proof.
  intros Hdone Hk. induction Hdone as [|pos done Hpos _ IH]; [done|].
  unfold column in *. simpl.
  assert (k ∈ dom (dict pos)) as [v ->]%elem_of_dom by by rewrite Hpos.
  simpl. f_equal. apply IH.
Qed.

Lemma column_values atm_params done k :
  Forall (on_grid atm_params) done → Forall (λ pos, NoDup pos.*1) done →
  k ∈ dom atm_params →
  Forall2 (λ pos v, (k, v) ∈ pos) done (column k done).
Proof.
  intros Hdone Hnd Hk.
  induction Hdone as [|pos done Hpos _ IH]; [constructor|].
  apply Forall_cons in Hnd as [Hnd1 Hnd].
  unfold column in *. simpl.
  assert (k ∈ dom (dict pos)) as [v Hv]%elem_of_dom by by rewrite Hpos.
  rewrite Hv. simpl. constructor; [|by apply IH].
  by apply dict_lookup.
Qed.

Lemma grid_points_NoDup atm_params :
  Forall (λ pos, NoDup pos.*1) (grid_points atm_params).
Proof.
  eapply Forall_impl; [apply grid_points_names|].
  intros pos ->. apply sorted_items_NoDup.
Qed.

Lemma length_rows atm_params done llhs k row :
  atm_params !! "llh" = None →
  Forall (on_grid atm_params) done → length llhs = length done →
  rows atm_params done llhs !! k = Some row → length row = length done.
Proof.
  intros Hllh Hdone Hlen. destruct (decide (k = "llh")) as [->|Hk].
  - rewrite rows_lookup_llh. by intros [= <-].
  - rewrite rows_lookup by done.
    destruct (atm_params !! k) as [p|] eqn:Hp; [|done].
    intros [= <-]. eapply length_column; [done|]. by apply elem_of_dom.
Qed.

Lemma Forall2_exists {A B} (P : A → B → Prop) (l : list A) :
  (∀ a, a ∈ l → ∃ b, P a b) → ∃ k, Forall2 P l k.
Proof.
  induction l as [|a l IH]; intros HP; [by exists []|].
  destruct (HP a) as [b Hb]; [apply list_elem_of_here|].
  destruct IH as [k Hk].
  { intros a' Ha'. apply HP. by apply list_elem_of_further. }
  exists (b :: k). by constructor.
Qed.

(** The scan that meets no failure ends in the closed-form state. *)
Lemma run_scan_done evaluate hp0 atm_params llhs :
  has_steps atm_params → atm_params !! "llh" = None →
  dom atm_params ⊆ dom hp0 →
  Forall2 (λ pos x, verdict evaluate (snapshot hp0 pos) = inr x)
    (grid_points atm_params) llhs →
  run_scan evaluate hp0 atm_params
  = Done (state_after hp0 atm_params (grid_points atm_params) llhs).
Proof.
  intros Hs Hllh Hdom Hxs. rewrite run_scan_grid by done.
  rewrite (scan_loop_done _ _ _ Hllh Hdom _ _ _ llhs); [done| |done].
  apply grid_points_on_grid.
Qed.

(** ** What the optimizer is handed *)

Lemma snapshot_lookup_scanned hp0 pos k v :
  NoDup pos.*1 → (k, v) ∈ pos →
  snapshot hp0 pos !! k = Param.set_value v <$> hp0 !! k.
Proof.
  intros Hnd Hkv%dict_lookup; [|done]. unfold snapshot, fixed_at.
  by rewrite overlay_lookup, Hkv.
Qed.

Lemma snapshot_lookup_other hp0 pos k :
  k ∉ pos.*1 → snapshot hp0 pos !! k = hp0 !! k.
Proof.
  intros Hk. unfold snapshot, fixed_at. rewrite overlay_lookup.
  assert (dict pos !! k = None) as ->.
  { apply not_elem_of_dom. rewrite dom_dict. by rewrite elem_of_list_to_set. }
  simpl. by destruct (hp0 !! k).
Qed.

Section Calls.
Variable evaluate : params → exn + gmap string (list pyval).
Variables hp0 atm_params : params.
Hypothesis llh_reserved : atm_params !! "llh" = None.
Hypothesis atm_in_hypo : dom atm_params ⊆ dom hp0.

(** Whatever the optimizer answers, the calls made are those of an
    initial stretch of the positions, each with the parameters of the
    scan's start fixed at that position. *)
Lemma scan_loop_calls todo : ∀ done llhs,
  Forall (on_grid atm_params) (done ++ todo) →
  ∃ n, n ≤ length todo ∧
    calls (final_state (scan_loop evaluate todo
                          (state_after hp0 atm_params done llhs)))
    = snapshot hp0 <$> (done ++ take n todo).
Proof.
  induction todo as [|pos todo IH]; intros done llhs Hgrid.
  - exists 0. by rewrite app_nil_r.
  - rewrite cons_middle, (assoc_L (++)) in Hgrid.
    pose proof Hgrid as [[Hdone Hpos]%Forall_snoc_inv _]%Forall_app.
    simpl. destruct (verdict evaluate (snapshot hp0 pos)) as [e|x] eqn:Hv.
    + rewrite (scan_point_raised _ _ _ llh_reserved atm_in_hypo _ _ _ e)
        by done.
      exists 1. simpl. split; [lia|]. by rewrite take_0.
    + rewrite (scan_point_done _ _ _ llh_reserved atm_in_hypo _ _ _ x)
        by done.
      simpl. destruct (IH _ (llhs ++ [x]) Hgrid) as (n & Hn & ->).
      exists (S n). simpl. split; [lia|].
      by rewrite <-(assoc_L (++)).
Qed.
End Calls.

(** ** The [fixed] flags *)

Lemma flags_kept_refl st : flags_kept st st.
Proof. split; [done|]. exists []. by rewrite app_nil_r. Qed.

Lemma flags_kept_trans st0 st1 st2 :
  flags_kept st0 st1 → flags_kept st1 st2 → flags_kept st0 st2.
Proof.
  intros [Hf1 (a1 & Hc1 & Ha1)] [Hf2 (a2 & Hc2 & Ha2)]. split; [congruence|].
  exists (a1 ++ a2). rewrite Hc2, Hc1, (assoc_L (++)). split; [done|].
  apply Forall_app. split; [done|].
  eapply Forall_impl; [exact Ha2|]. intros hp Hhp. congruence.
Qed.

Lemma flags_kept_and_then o k st0 :
  flags_kept st0 (final_state o) →
  (∀ st, flags_kept st (final_state (k st))) →
  flags_kept st0 (final_state (and_then o k)).
Proof.
  intros Ho Hk. destruct o as [st|e st]; simpl in *; [|done].
  eapply flags_kept_trans; [exact Ho|apply Hk].
Qed.

Lemma flags_insert_set_value hp k v p :
  hp !! k = Some p → flags (<[k := Param.set_value v p]> hp) = flags hp.
Proof.
  intros Hp. unfold flags. rewrite fmap_insert. simpl.
  apply insert_id. by rewrite lookup_fmap, Hp.
Qed.

Lemma fix_param_flags kv st : flags_kept st (final_state (fix_param kv st)).
Proof.
  unfold fix_param. destruct (hypo_params st !! kv.1) as [p|] eqn:Hp;
    [|apply flags_kept_refl].
  destruct (steps st !! kv.1); simpl;
    (split; simpl; [by apply flags_insert_set_value|];
     exists []; by rewrite app_nil_r).
Qed.

Lemma fix_params_flags items : ∀ st,
  flags_kept st (final_state (fix_params items st)).
Proof.
  induction items as [|kv items IH]; intros st; [apply flags_kept_refl|].
  simpl. apply flags_kept_and_then; [apply fix_param_flags|apply IH].
Qed.

Lemma record_llh_flags evaluate st :
  flags_kept st (final_state (record_llh evaluate st)).
Proof.
  assert (flags_kept st (mk_state (hypo_params st) (steps st) (stored st)
                           (calls st ++ [hypo_params st]))) as Hcall.
  { split; [done|]. exists [hypo_params st]. split; [done|]. by constructor. }
  unfold record_llh. simpl.
  destruct (evaluate (hypo_params st)) as [e|llh_data]; [done|].
  destruct (steps st !! "llh") as [row|]; [|done].
  destruct (final_llh llh_data) as [e|x]; [done|].
  destruct Hcall as [Hf Ha]. by split.
Qed.

Lemma scan_loop_flags evaluate points : ∀ st,
  flags_kept st (final_state (scan_loop evaluate points st)).
Proof.
  induction points as [|pos points IH]; intros st; [apply flags_kept_refl|].
  simpl. apply flags_kept_and_then; [|apply IH].
  unfold scan_point. apply flags_kept_and_then;
    [apply fix_params_flags|apply record_llh_flags].
Qed.

(** ** Empty pools and the empty parameter set *)

Lemma bind_all_nil {A B} (f : A → list B) (l : list A) :
  (∀ x, f x = []) → l ≫= f = [].
Proof.
  intros Hf. induction l as [|x l IH]; [done|].
  by rewrite bind_cons, Hf, IH.
Qed.

Lemma nested_loops_empty_pool {A} (pools : list (list A)) :
  [] ∈ pools → nested_loops pools = [].
Proof.
  induction pools as [|pool pools IH]; [by intros ?%elem_of_nil|].
  intros [<-|Hin]%elem_of_cons; [done|].
  simpl. apply bind_all_nil. intros y. by rewrite IH.
Qed.

Lemma grid_points_empty atm_params k p :
  atm_params !! k = Some p → step_values p = [] →
  grid_points atm_params = [].
Proof.
  intros Hp Hnil. unfold grid_points. rewrite product_nested_loops.
  apply nested_loops_empty_pool, list_elem_of_fmap.
  exists (k, p). simpl. rewrite Hnil. split; [done|].
  by apply elem_of_sorted_items.
Qed.

Lemma sorted_items_empty {A} : sorted_items (∅ : gmap string A) = [].
Proof. unfold sorted_items. by rewrite map_to_list_empty. Qed.

Lemma run_scan_no_params evaluate hp0 :
  run_scan evaluate hp0 ∅
  = record_llh evaluate (mk_state hp0 {["llh" := []]} false []).
Proof.
  unfold run_scan, steplist. rewrite sorted_items_empty. simpl.
  unfold scan_point, dict. simpl. rewrite map_to_list_empty. simpl.
  unfold init_steps. rewrite fmap_empty.
  by destruct (record_llh evaluate _).
Qed.

(** * The scenarios, run *)

Lemma atm2_has_steps : has_steps atm2.
Proof. apply (bool_decide_unpack _). by vm_compute. Qed.

Lemma atm2_in_hypo2 : dom atm2 ⊆ dom hypo2.
Proof. unfold hypo2. rewrite dom_insert_L. set_solver. Qed.

Lemma steady_succeeds hp0 atm_params : succeeds_on steady hp0 atm_params.
Proof. intros pos _. by eexists. Qed.

Lemma grid_points_atm2 : grid_points atm2 = scan_order2.
Proof. vm_compute. reflexivity. Qed.

Lemma steady_run :
  run_scan steady hypo2 atm2
  = Done (state_after hypo2 atm2 scan_order2 (replicate 6 (PyFloat 10.25%float))).
Proof.
  rewrite <-grid_points_atm2.
  apply run_scan_done; [apply atm2_has_steps|reflexivity|apply atm2_in_hypo2|].
  rewrite grid_points_atm2. repeat constructor.
Qed.

Lemma steady_free_run :
  run_scan steady hypo2_free atm2
  = Done (state_after hypo2_free atm2 scan_order2
            (replicate 6 (PyFloat 10.25%float))).
Proof.
  rewrite <-grid_points_atm2.
  apply run_scan_done; [apply atm2_has_steps|reflexivity| |].
  - apply (bool_decide_unpack _). vm_compute. reflexivity.
  - rewrite grid_points_atm2. repeat constructor.
Qed.

Lemma diverging_run :
  run_scan diverging hypo2 atm2
  = Done (state_after hypo2 atm2 scan_order2 (replicate 6 (PyFloat nan))).
Proof.
  rewrite <-grid_points_atm2.
  apply run_scan_done; [apply atm2_has_steps|reflexivity|apply atm2_in_hypo2|].
  rewrite grid_points_atm2. repeat constructor.
Qed.

Lemma crashing_run :
  run_scan crashing_at_half hypo2 atm2
  = Raised (EvaluatorError "no convergence")
      (mk_state
         (snapshot hypo2 [("deltam31", PyFloat 0.002%float); ("theta23", PyFloat 0.5%float)])
         (rows atm2 (take 2 scan_order2) [PyFloat 10.25%float])
         true
         (snapshot hypo2 <$> take 2 scan_order2)).
Proof.
  rewrite run_scan_grid by apply atm2_has_steps.
  pose proof (grid_points_on_grid atm2) as Hgrid.
  rewrite grid_points_atm2 in *.
  apply (scan_loop_raised crashing_at_half hypo2 atm2 eq_refl atm2_in_hypo2
           [ [("deltam31", PyFloat 0.002%float); ("theta23", PyFloat 0.35%float)] ]
           [("deltam31", PyFloat 0.002%float); ("theta23", PyFloat 0.5%float)]
           _ [] [] [PyFloat 10.25%float]).
  - simpl. by apply Forall_take with (n := 2) in Hgrid.
  - repeat constructor.
  - vm_compute. reflexivity.
Qed.


(** * The claims *)

(** C1.  Whatever the scanned parameters are, the scan visits the full
    Cartesian product of their step lists: the names are taken in strictly
    increasing order, the index vectors below the lengths of the step lists
    are all there, once each, in lexicographic order (so the last name
    varies fastest), the position visited at an index vector takes the
    indexed step of every parameter, and the number of positions, like the
    length of every row of the result, is the product of the lengths. *)
Theorem scan_visits_cartesian_product evaluate hp0 atm_params :
  has_steps atm_params → atm_params !! "llh" = None →
  dom atm_params ⊆ dom hp0 → succeeds_on evaluate hp0 atm_params →
  let items := sorted_items atm_params in
  let shape := grid_shape atm_params in
  StronglySorted (strict String.le) items.*1 ∧
  items ≡ₚ map_to_list atm_params ∧
  StronglySorted lexico (index_grid shape) ∧
  (∀ idx, idx ∈ index_grid shape ↔ Forall2 lt idx shape) ∧
  ∃ points llhs,
    Forall2 (λ pos idx, point_at items idx = Some pos) points (index_grid shape) ∧
    run_scan evaluate hp0 atm_params
    = Done (state_after hp0 atm_params points llhs) ∧
    length points = volume shape ∧
    ∀ k row, rows atm_params points llhs !! k = Some row →
      length row = volume shape.
Proof.
  intros Hs Hllh Hdom Hok. simpl. split_and!.
  - apply sorted_items_names_sorted.
  - apply sorted_items_perm.
  - apply index_grid_sorted.
  - apply elem_of_index_grid.
  - destruct (Forall2_exists _ _ Hok) as [llhs Hllhs].
    exists (grid_points atm_params), llhs. split_and!.
    + apply grid_points_point_at.
    + by apply run_scan_done.
    + apply length_grid_points.
    + intros k row Hrow. rewrite <-length_grid_points.
      eapply length_rows; [done|apply grid_points_on_grid| |done].
      symmetry. by eapply Forall2_length.
Qed.

Lemma scan_visits_cartesian_product_witness :
  ∃ points llhs,
    run_scan steady hypo2 atm2 = Done (state_after hypo2 atm2 points llhs) ∧
    length points = volume (grid_shape atm2).
Proof.
  destruct (scan_visits_cartesian_product steady hypo2 atm2
              atm2_has_steps eq_refl atm2_in_hypo2 (steady_succeeds _ _))
    as (_ & _ & _ & _ & points & llhs & _ & Hrun & Hlen & _).
  exists points, llhs. split; assumption.
Defined.

(** C2, as stated, fails: the second position the loop visits has
    [theta23 = 0.5] and [deltam31 = 0.002], where the expected order has
    [theta23 = 0.35] and [deltam31 = 0.003]; the rows of the result follow
    the loop. *)
Lemma two_parameter_order_counterexample :
  (snapshot hypo2 <$> grid_points atm2) ≠ (snapshot hypo2 <$> spec_order2) ∧
  ∃ st, run_scan steady hypo2 atm2 = Done st ∧
    calls st = snapshot hypo2 <$> grid_points atm2 ∧
    steps st !! "theta23"
    = Some [PyFloat 0.35%float; PyFloat 0.5%float; PyFloat 0.65%float;
            PyFloat 0.35%float; PyFloat 0.5%float; PyFloat 0.65%float].
Proof.
  split.
  - intros Heq.
    apply (f_equal (λ l, (λ hp : params,
             (λ p, is_half (Param.value p)) <$> hp !! "theta23") <$> l !! 1)) in Heq.
    vm_compute in Heq. discriminate Heq.
  - eexists. split; [apply steady_run|]. split.
    + by rewrite grid_points_atm2.
    + vm_compute. reflexivity.
Qed.

(** C2, amended.  The two-parameter scan evaluates six positions, in the
    order [(deltam31=0.002, theta23=0.35)], [(0.002, 0.5)], [(0.002, 0.65)],
    [(0.003, 0.35)], [(0.003, 0.5)], [(0.003, 0.65)], that is with [theta23]
    varying fastest, and the result has the keys [theta23], [deltam31]
    and [llh], each with a row of length six. *)
Theorem two_parameter_scan evaluate hp0 :
  dom atm2 ⊆ dom hp0 → succeeds_on evaluate hp0 atm2 →
  ∃ st llhs, run_scan evaluate hp0 atm2 = Done st ∧
    calls st = snapshot hp0 <$> scan_order2 ∧
    dom (steps st) = {["theta23"; "deltam31"; "llh"]} ∧
    steps st !! "deltam31"
    = Some [PyFloat 0.002%float; PyFloat 0.002%float; PyFloat 0.002%float;
            PyFloat 0.003%float; PyFloat 0.003%float; PyFloat 0.003%float] ∧
    steps st !! "theta23"
    = Some [PyFloat 0.35%float; PyFloat 0.5%float; PyFloat 0.65%float;
            PyFloat 0.35%float; PyFloat 0.5%float; PyFloat 0.65%float] ∧
    steps st !! "llh" = Some llhs ∧ length llhs = 6.
Proof.
  intros Hdom Hok.
  destruct (Forall2_exists _ _ Hok) as [llhs Hllhs].
  exists (state_after hp0 atm2 (grid_points atm2) llhs), llhs.
  split; [by apply run_scan_done; [apply atm2_has_steps|..]|].
  apply Forall2_length in Hllhs. rewrite grid_points_atm2 in *.
  simpl. split_and!.
  - reflexivity.
  - rewrite dom_rows. vm_compute. reflexivity.
  - vm_compute. reflexivity.
  - vm_compute. reflexivity.
  - apply lookup_insert_eq.
  - symmetry. exact Hllhs.
Qed.

Lemma two_parameter_scan_witness :
  ∃ st llhs, run_scan steady hypo2 atm2 = Done st ∧
    calls st = snapshot hypo2 <$> scan_order2 ∧
    steps st !! "llh" = Some llhs ∧ length llhs = 6.
Proof.
  destruct (two_parameter_scan steady hypo2 atm2_in_hypo2 (steady_succeeds _ _))
    as (st & llhs & Hrun & Hcalls & _ & _ & _ & Hllh & Hlen).
  exists st, llhs. repeat split; assumption.
Defined.

(** C3, as stated, fails: a likelihood that is not a number is stored in
    the [llh] row like any other, and an optimizer that raises at the
    second of the six positions ends the scan there, after two calls. *)
Lemma failed_point_counterexample :
  (∃ st row, run_scan diverging hypo2 atm2 = Done st ∧
     steps st !! "llh" = Some row ∧ is_finite <$> row = replicate 6 false) ∧
  (∃ e st, run_scan crashing_at_half hypo2 atm2 = Raised e st ∧
     length (calls st) = 2 ∧ length (grid_points atm2) = 6).
Proof.
  split.
  - eexists _, _. split; [apply diverging_run|]. split.
    + apply lookup_insert_eq.
    + vm_compute. reflexivity.
  - eexists _, _. split; [apply crashing_run|]. split.
    + reflexivity.
    + by rewrite grid_points_atm2.
Qed.

(** C3, amended.  When the optimizer returns a likelihood trajectory at
    every position, the last element of each is appended to the [llh] row
    as it is returned, finite or not, and every position is evaluated.
    When it raises at a position, or returns no trajectory or an empty one,
    the exception ends the scan: the call at that position is the last, and
    the [llh] row holds the likelihoods of the positions before it. *)
Theorem likelihood_recorded_as_returned evaluate hp0 atm_params :
  has_steps atm_params → atm_params !! "llh" = None →
  dom atm_params ⊆ dom hp0 →
  (∀ llhs,
     Forall2 (λ pos x, verdict evaluate (snapshot hp0 pos) = inr x)
       (grid_points atm_params) llhs →
     ∃ st, run_scan evaluate hp0 atm_params = Done st ∧
       steps st !! "llh" = Some llhs ∧
       calls st = snapshot hp0 <$> grid_points atm_params) ∧
  (∀ before pos after llhs e,
     grid_points atm_params = before ++ pos :: after →
     Forall2 (λ pos x, verdict evaluate (snapshot hp0 pos) = inr x) before llhs →
     verdict evaluate (snapshot hp0 pos) = inl e →
     ∃ st, run_scan evaluate hp0 atm_params = Raised e st ∧
       steps st !! "llh" = Some llhs ∧
       calls st = snapshot hp0 <$> (before ++ [pos])).
Proof.
  intros Hs Hllh Hdom. split.
  - intros llhs Hok. eexists. split; [by apply run_scan_done|].
    split; [apply lookup_insert_eq|done].
  - intros before pos after llhs e Hpoints Hok He.
    pose proof (grid_points_on_grid atm_params) as Hgrid.
    rewrite run_scan_grid, Hpoints by done. rewrite Hpoints in Hgrid.
    rewrite (scan_loop_raised evaluate hp0 atm_params Hllh Hdom
               before pos after [] [] llhs e); [|..|done|done].
    + eexists. split; [done|]. split; [apply lookup_insert_eq|done].
    + simpl. rewrite cons_middle, (assoc_L (++)) in Hgrid.
      by apply Forall_app in Hgrid as [? _].
Qed.

Lemma likelihood_recorded_as_returned_witness :
  ∃ st, run_scan crashing_at_half hypo2 atm2
        = Raised (EvaluatorError "no convergence") st ∧
    steps st !! "llh" = Some [PyFloat 10.25%float] ∧
    calls st = snapshot hypo2 <$> take 2 scan_order2.
Proof.
  destruct (likelihood_recorded_as_returned crashing_at_half hypo2 atm2
              atm2_has_steps eq_refl atm2_in_hypo2) as [_ Hraise].
  apply (Hraise (take 1 scan_order2)
           [("deltam31", PyFloat 0.002%float); ("theta23", PyFloat 0.5%float)]
           (drop 2 scan_order2)).
  - apply grid_points_atm2.
  - repeat constructor.
  - vm_compute. reflexivity.
Defined.

(** C4, as stated, fails: when the optimizer raises at the second position,
    the script ends with two values in the rows of [theta23] and
    [deltam31] and one value in the [llh] row. *)
Lemma equal_lengths_counterexample :
  ∃ e st, run_scan crashing_at_half hypo2 atm2 = Raised e st ∧
    length <$> steps st !! "theta23" = Some 2 ∧
    length <$> steps st !! "deltam31" = Some 2 ∧
    length <$> steps st !! "llh" = Some 1.
Proof.
  eexists _, _. split; [apply crashing_run|].
  split_and!; vm_compute; reflexivity.
Qed.

(** C4, amended.  After each fully processed position, the keys of the
    result are the scanned names and [llh], and every row has as many
    values as positions were processed; after a complete scan over N
    positions every row has N values.  When the optimizer fails at a
    position, the script ends with the rows of the scanned names one value
    longer than the [llh] row. *)
Theorem rows_have_equal_lengths evaluate hp0 atm_params :
  has_steps atm_params → atm_params !! "llh" = None →
  dom atm_params ⊆ dom hp0 →
  (∀ done todo llhs,
     grid_points atm_params = done ++ todo →
     Forall2 (λ pos x, verdict evaluate (snapshot hp0 pos) = inr x) done llhs →
     ∃ st,
       scan_loop evaluate done (initial_state hp0 atm_params) = Done st ∧
       run_scan evaluate hp0 atm_params = scan_loop evaluate todo st ∧
       dom (steps st) = {["llh"]} ∪ dom atm_params ∧
       ∀ k row, steps st !! k = Some row → length row = length done) ∧
  (∀ done pos todo llhs e,
     grid_points atm_params = done ++ pos :: todo →
     Forall2 (λ pos x, verdict evaluate (snapshot hp0 pos) = inr x) done llhs →
     verdict evaluate (snapshot hp0 pos) = inl e →
     ∃ st, run_scan evaluate hp0 atm_params = Raised e st ∧
       length <$> steps st !! "llh" = Some (length done) ∧
       ∀ k, k ∈ dom atm_params →
         length <$> steps st !! k = Some (S (length done))).
Proof.
  intros Hs Hllh Hdom.
  pose proof (grid_points_on_grid atm_params) as Hgrid.
  assert (initial_state hp0 atm_params = state_after hp0 atm_params [] [])
    as Hinit by (unfold initial_state, state_after; by rewrite rows_nil).
  split.
  - intros done todo llhs Hpoints Hok. rewrite Hpoints in Hgrid.
    apply Forall_app in Hgrid as [Hdone Htodo].
    exists (state_after hp0 atm_params done llhs).
    assert (scan_loop evaluate done (initial_state hp0 atm_params)
            = Done (state_after hp0 atm_params done llhs)) as Hrun.
    { rewrite Hinit.
      by rewrite (scan_loop_done evaluate hp0 atm_params Hllh Hdom done [] [] llhs). }
    split_and!.
    + exact Hrun.
    + rewrite run_scan_grid, Hpoints, scan_loop_app, <-Hinit, Hrun by done.
      done.
    + apply dom_rows.
    + intros k row. simpl. apply length_rows; [done..|].
      symmetry. by eapply Forall2_length.
  - intros done pos todo llhs e Hpoints Hok He. rewrite Hpoints in Hgrid.
    rewrite cons_middle, (assoc_L (++)) in Hgrid.
    apply Forall_app in Hgrid as [Hgrid _].
    rewrite run_scan_grid, Hpoints by done.
    rewrite (scan_loop_raised evaluate hp0 atm_params Hllh Hdom
               done pos todo [] [] llhs e) by done.
    eexists. split; [done|]. simpl. split.
    + rewrite rows_lookup_llh. simpl. f_equal. symmetry.
      by eapply Forall2_length.
    + intros k Hk.
      assert (k ≠ "llh") as Hne by (intros ->; by apply not_elem_of_dom in Hllh).
      rewrite rows_lookup by done.
      pose proof Hk as [p ->]%elem_of_dom. simpl. f_equal.
      rewrite (length_column atm_params) by done.
      rewrite length_app. simpl. lia.
Qed.

Lemma rows_have_equal_lengths_witness :
  ∃ st,
    scan_loop steady (take 4 scan_order2) (initial_state hypo2 atm2) = Done st ∧
    run_scan steady hypo2 atm2 = scan_loop steady (drop 4 scan_order2) st ∧
    dom (steps st) = {["llh"]} ∪ dom atm2 ∧
    ∀ k row, steps st !! k = Some row → length row = 4.
Proof.
  destruct (rows_have_equal_lengths steady hypo2 atm2
              atm2_has_steps eq_refl atm2_in_hypo2) as [Hdone _].
  apply (Hdone (take 4 scan_order2) (drop 4 scan_order2)
           (replicate 4 (PyFloat 10.25%float))).
  - apply grid_points_atm2.
  - repeat constructor.
Defined.




(** C6, as stated, fails.  With no parameter to scan the script raises
    nothing: it calls the optimizer once and records one likelihood.  With
    a parameter whose step list is empty it raises nothing either: it ends
    normally, without a call and with empty rows. *)
Lemma empty_scan_counterexample :
  run_scan steady hypo2 ∅
  = Done (mk_state hypo2 {["llh" := [PyFloat 10.25%float]]} true [hypo2]) ∧
  run_scan steady hypo2 atm_no_steps
  = Done (mk_state hypo2 (<["llh" := []]> {["theta23" := []]}) false []).
Proof. split; vm_compute; reflexivity. Qed.

(** C6, amended.  If a scanned parameter's step list is empty, no position
    is evaluated: the optimizer is not called and every row of the result
    stays empty; the script raises no error and ends normally.  If the set
    of parameters to scan is empty, the script does not fail before
    evaluating either: it calls the optimizer exactly once. *)
Theorem empty_scan_does_not_fail evaluate hp0 atm_params k p :
  has_steps atm_params →
  atm_params !! k = Some p → Param.steps p = Some [] →
  run_scan evaluate hp0 atm_params
  = Done (mk_state hp0 (init_steps atm_params) false []) ∧
  (∀ row, row ∈ (map_to_list (init_steps atm_params)).*2 → row = []) ∧
  calls (final_state (run_scan evaluate hp0 ∅)) = [hp0].
Proof.
  intros Hs Hp Hnil. split_and!.
  - rewrite run_scan_grid by done.
    rewrite (grid_points_empty atm_params k p); [|done|].
    + simpl. unfold state_after. by rewrite rows_nil.
    + unfold step_values. by rewrite Hnil.
  - intros row ([k' row'] & -> & Hin%elem_of_map_to_list)%list_elem_of_fmap.
    simpl. unfold init_steps in Hin.
    apply lookup_insert_Some in Hin as [[_ <-]|[_ Hin]]; [done|].
    rewrite lookup_fmap in Hin.
    by destruct (atm_params !! k'); simplify_eq/=.
  - rewrite run_scan_no_params. unfold record_llh. simpl.
    destruct (evaluate hp0) as [e|llh_data]; [done|].
    rewrite lookup_singleton_eq. by destruct (final_llh llh_data).
Qed.

Lemma empty_scan_does_not_fail_witness :
  run_scan steady hypo2 atm_no_steps
  = Done (mk_state hypo2 (init_steps atm_no_steps) false []) ∧
  (∀ row, row ∈ (map_to_list (init_steps atm_no_steps)).*2 → row = []) ∧
  calls (final_state (run_scan steady hypo2 ∅)) = [hypo2].
Proof.
  apply (empty_scan_does_not_fail steady hypo2 atm_no_steps "theta23"
           (Param.mk (PyFloat 0.42%float) true (Some []))).
  - apply (bool_decide_unpack _). vm_compute. reflexivity.
  - reflexivity.
  - reflexivity.
Defined.

(** C7, as stated, fails.  A scan whose parameters are already fixed is not
    rejected, and [theta23] is still fixed when the scan is over; a scan
    whose parameters are not fixed hands them to the optimizer unfixed at
    every position. *)
Lemma fixed_flag_counterexample :
  (Param.fixed <$> hypo2 !! "theta23" = Some true ∧
   ∃ st, run_scan steady hypo2 atm2 = Done st ∧
     Param.fixed <$> hypo_params st !! "theta23" = Some true) ∧
  (∃ st, run_scan steady hypo2_free atm2 = Done st ∧
     (λ hp : params, Param.fixed <$> hp !! "theta23") <$> calls st
     = replicate 6 (Some false)).
Proof.
  split; [split; [reflexivity|]|].
  - eexists. split; [apply steady_run|]. vm_compute. reflexivity.
  - eexists. split; [apply steady_free_run|]. vm_compute. reflexivity.
Qed.

Section FlagFacts.
Context {Binning MinOpt Grid Values Hist TM : Type}.
Variable fix_atm_params : params → params.
Variable get_values : params → Values.
Variable TemplateMaker : Values → Binning → TM.
Variable select_hierarchy : params → bool → params.
Variable get_asimov_fmap : TM → Values → pyval → Hist.
Variable get_atm_params : params → params.
Variable calc_steps : params → Grid → params.
Variable find_opt_scipy :
  Hist → TM → params → gmap string MinOpt → bool → bool →
  exn + gmap string (list pyval).

(** C7, amended.  The scan writes the value of each scanned parameter and
    never its [fixed] flag: at every call of the optimizer, and when the
    scan is over or has failed, every parameter's flag is what it was when
    the loop started.  In the script these are the flags that
    [fix_atm_params], called once before the scan, and [select_hierarchy]
    produced: nothing is validated, marked or unmarked per position. *)
Theorem fixed_flags_untouched args scipy_old template_settings minimizer_settings
    grid_settings :
  (∀ evaluate hp0 atm_params,
     let st := final_state (run_scan evaluate hp0 atm_params) in
     flags (hypo_params st) = flags hp0 ∧
     Forall (λ hp, flags hp = flags hp0) (calls st)) ∧
  let ts := with_gpu_id (gpu_id args) template_settings in
  let hp0 :=
    select_hierarchy (fix_atm_params (Template.params ts)) (hypo_nh args) in
  Forall (λ ev, ∀ hp, ev = Optimize hp → flags hp = flags hp0)
    (trace (main fix_atm_params get_values TemplateMaker select_hierarchy
              get_asimov_fmap get_atm_params calc_steps find_opt_scipy
              args scipy_old template_settings minimizer_settings
              grid_settings)).
Proof.
  assert (∀ evaluate hp0 atm_params,
     let st := final_state (run_scan evaluate hp0 atm_params) in
     flags (hypo_params st) = flags hp0 ∧
     Forall (λ hp, flags hp = flags hp0) (calls st)) as Hloop.
  { intros evaluate hp0 atm_params. simpl. unfold run_scan.
    destruct (steplist atm_params) as [e|pools]; [by split|].
    destruct (scan_loop_flags evaluate (product pools)
                (mk_state hp0 (init_steps atm_params) false []))
      as [Hflags (added & Hcalls & Hadded)].
    split; [exact Hflags|]. by rewrite Hcalls. }
  split; [exact Hloop|]. simpl. unfold main.
  destruct (Template.params template_settings !! "channel") as [channel_param|];
    [|constructor].
  destruct (grid_settings !! "steps") as [grid_steps|];
    [|by repeat constructor].
  match goal with
  | |- context [run_scan ?ev ?hp ?atm] =>
      destruct (Hloop ev hp atm) as [_ Hcalls];
      destruct (run_scan ev hp atm) as [st|e st]
  end; simpl in *.
  - constructor; [done|]. apply Forall_app. split.
    + apply Forall_fmap. eapply Forall_impl; [exact Hcalls|].
      intros hp Hhp hp' [= <-]. exact Hhp.
    + by repeat constructor.
  - constructor; [done|].
    apply Forall_fmap. eapply Forall_impl; [exact Hcalls|].
    intros hp Hhp hp' [= <-]. exact Hhp.
Qed.
End FlagFacts.

(** C8.  Whatever the optimizer answered at the positions before, the
    parameters it is handed at a position are those of the scan's start
    with every scanned parameter's value overwritten by the grid value of
    that position, and nothing else changed: the call at position [i+1]
    sees none of the values of position [i].  The calls are those of an
    initial stretch of the grid, which includes its first position, and of
    the whole grid when the optimizer succeeds everywhere. *)
Theorem optimizer_sees_own_position evaluate hp0 atm_params :
  has_steps atm_params → atm_params !! "llh" = None →
  dom atm_params ⊆ dom hp0 →
  let st := final_state (run_scan evaluate hp0 atm_params) in
  (∀ pos rest, grid_points atm_params = pos :: rest →
     ∃ n, calls st = snapshot hp0 <$> (pos :: take n rest)) ∧
  (succeeds_on evaluate hp0 atm_params →
   calls st = snapshot hp0 <$> grid_points atm_params) ∧
  ∀ i hp pos,
    calls st !! i = Some hp → grid_points atm_params !! i = Some pos →
    hp = snapshot hp0 pos ∧
    (∀ k v, (k, v) ∈ pos →
       ∃ p, hp0 !! k = Some p ∧ hp !! k = Some (Param.set_value v p) ∧
         Param.value <$> hp !! k = Some v ∧
         Param.fixed <$> hp !! k = Some (Param.fixed p) ∧
         Param.steps <$> hp !! k = Some (Param.steps p)) ∧
    (∀ k, k ∉ dom atm_params → hp !! k = hp0 !! k).
Proof.
  intros Hs Hllh Hdom st. subst st.
  pose proof (grid_points_on_grid atm_params) as Hgrid.
  split_and!.
  - intros pos rest Hpoints. rewrite run_scan_grid, Hpoints by done.
    rewrite Hpoints in Hgrid.
    pose proof Hgrid as [Hpos _]%Forall_cons. simpl.
    destruct (verdict evaluate (snapshot hp0 pos)) as [e|x] eqn:Hv.
    + rewrite (scan_point_raised _ _ _ Hllh Hdom _ _ _ e) by done.
      exists 0. by destruct rest.
    + rewrite (scan_point_done _ _ _ Hllh Hdom _ _ _ x) by done. simpl.
      destruct (scan_loop_calls evaluate hp0 atm_params Hllh Hdom
                  rest [pos] [x] Hgrid) as (n & _ & Hcalls).
      exists n. exact Hcalls.
  - intros Hok. destruct (Forall2_exists _ _ Hok) as [llhs Hllhs].
    by rewrite (run_scan_done evaluate hp0 atm_params llhs).
  - intros i hp pos Hcall Hpos.
    rewrite run_scan_grid in Hcall by done.
    destruct (scan_loop_calls evaluate hp0 atm_params Hllh Hdom
                (grid_points atm_params) [] [] Hgrid) as (n & _ & Hcalls).
    rewrite Hcalls in Hcall. simpl in Hcall.
    rewrite list_lookup_fmap in Hcall.
    destruct (take n (grid_points atm_params) !! i) as [pos'|] eqn:Htake;
      [|done].
    apply lookup_take_Some in Htake as [Hpos' _].
    assert (pos' = pos) as -> by congruence.
    injection Hcall as <-.
    assert (pos.*1 = (sorted_items atm_params).*1) as Hnames.
    { eapply Forall_lookup_1 in Hpos; [|apply grid_points_names]. done. }
    assert (NoDup pos.*1) as Hnd by (rewrite Hnames; apply sorted_items_NoDup).
    split_and!; [done|..].
    + intros k v Hkv. rewrite (snapshot_lookup_scanned _ _ _ v) by done.
      assert (k ∈ dom hp0) as [p Hp]%elem_of_dom.
      { apply Hdom. rewrite <-sorted_names_dom, <-Hnames.
        apply elem_of_list_to_set, list_elem_of_fmap. by exists (k, v). }
      exists p. by rewrite Hp.
    + intros k Hk. apply snapshot_lookup_other.
      rewrite Hnames. intros Hin. apply Hk.
      rewrite <-sorted_names_dom. by apply elem_of_list_to_set.
Qed.

Lemma optimizer_sees_own_position_witness :
  let st := final_state (run_scan crashing_at_half hypo2 atm2) in
  calls st !! 1 = Some (snapshot hypo2 second_position) ∧
  Param.value <$> snapshot hypo2 second_position !! "theta23"
  = Some (PyFloat 0.5%float) ∧
  Param.value <$> snapshot hypo2 second_position !! "deltam31"
  = Some (PyFloat 0.002%float) ∧
  (∀ k, k ∉ dom atm2 → snapshot hypo2 second_position !! k = hypo2 !! k).
Proof.
  assert (calls (final_state (run_scan crashing_at_half hypo2 atm2)) !! 1
          = Some (snapshot hypo2 second_position)) as Hcall
    by (rewrite crashing_run; reflexivity).
  assert (grid_points atm2 !! 1 = Some second_position) as Hpos
    by (rewrite grid_points_atm2; reflexivity).
  destruct (optimizer_sees_own_position crashing_at_half hypo2 atm2
              atm2_has_steps eq_refl atm2_in_hypo2)
    as (_ & _ & Hsees).
  destruct (Hsees 1 _ _ Hcall Hpos) as (_ & Hvalues & Hother).
  split; [exact Hcall|]. split_and!.
  - destruct (Hvalues "theta23" (PyFloat 0.5%float)) as (p & _ & _ & Hv & _).
    + apply list_elem_of_further, list_elem_of_here.
    + exact Hv.
  - destruct (Hvalues "deltam31" (PyFloat 0.002%float)) as (p & _ & _ & Hv & _).
    + apply list_elem_of_here.
    + exact Hv.
  - exact Hother.
Defined.

Lemma nested_loops_nonempty {A} (pools : list (list A)) :
  Forall (λ pool, pool ≠ []) pools → nested_loops pools ≠ [].
Proof.
  induction 1 as [|pool pools Hpool _ IH]; [done|]. simpl.
  destruct pool as [|y pool]; [done|]. rewrite bind_cons.
  destruct (nested_loops pools) as [|t ts]; [done|]. done.
Qed.

Lemma grid_points_nonempty atm_params :
  map_Forall (λ _ p, step_values p ≠ []) atm_params →
  grid_points atm_params ≠ [].
Proof.
  intros Hsteps. unfold grid_points. rewrite product_nested_loops.
  apply nested_loops_nonempty, Forall_fmap, Forall_forall.
  intros [k p] Hkp%elem_of_sorted_items. simpl.
  intros Hnil%fmap_nil_inv. by apply (Hsteps k p).
Qed.

Lemma with_gpu_id_unique {Binning} gpu (template_settings ts : Template.t Binning) :
  Template.binning ts = Template.binning template_settings →
  match gpu with
  | None => Template.params ts = Template.params template_settings
  | Some g =>
      Template.params ts !! "gpu_id" = Some (Param.mk (PyInt g) true None) ∧
      ∀ k, k ≠ "gpu_id" →
        Template.params ts !! k = Template.params template_settings !! k
  end →
  ts = with_gpu_id gpu template_settings.
Proof.
  destruct ts as [ps b], template_settings as [ps0 b0]. simpl.
  intros -> Hps. destruct gpu as [g|]; simpl; [|by rewrite Hps].
  destruct Hps as [Hgpu Hother]. f_equal. apply map_eq. intros k.
  destruct (decide (k = "gpu_id")) as [->|Hne].
  - by rewrite lookup_insert_eq.
  - rewrite lookup_insert_ne by done. by apply Hother.
Qed.

Lemma drop_maxiter_unique {MinOpt} (scipy_old : bool)
    (minimizer_settings ms : gmap string MinOpt) :
  (if scipy_old
   then ms !! "maxiter" = None ∧
        ∀ k, k ≠ "maxiter" → ms !! k = minimizer_settings !! k
   else ms = minimizer_settings) →
  ms = drop_maxiter scipy_old minimizer_settings.
Proof.
  destruct scipy_old; simpl; [|done]. intros [Hmax Hother].
  apply map_eq. intros k. destruct (decide (k = "maxiter")) as [->|Hne].
  - by rewrite lookup_delete_eq.
  - rewrite lookup_delete_ne by done. by apply Hother.
Qed.

(** C9, as stated, fails: the settings in the output are not always the
    original input documents.  With [--gpu_id 0] on the command line and an
    old scipy, the run ends normally and writes template settings that
    hold a [gpu_id] parameter the input document does not have, and
    minimizer settings without the [maxiter] the input document has. *)
Lemma results_bundle_counterexample :
  let r := demo_main true demo_args demo_template demo_minimizer demo_grid_two in
  raised r = None ∧
  Template.params demo_template !! "gpu_id" = None ∧
  (written r ≫= stored_template) ≫= (λ ts, Template.params ts !! "gpu_id")
  = Some (Param.mk (PyInt 0) true None) ∧
  demo_minimizer !! "maxiter" = Some (PyInt 50) ∧
  (λ ms : gmap string pyval, ms !! "maxiter") <$> (written r ≫= stored_minimizer)
  = Some None.
Proof. split_and!; vm_compute; reflexivity. Qed.

Section ScriptFacts.
Context {Binning MinOpt Grid Values Hist TM : Type}.
Variable fix_atm_params : params → params.
Variable get_values : params → Values.
Variable TemplateMaker : Values → Binning → TM.
Variable select_hierarchy : params → bool → params.
Variable get_asimov_fmap : TM → Values → pyval → Hist.
Variable get_atm_params : params → params.
Variable calc_steps : params → Grid → params.
Variable find_opt_scipy :
  Hist → TM → params → gmap string MinOpt → bool → bool →
  exn + gmap string (list pyval).

(** C9, amended.  When a scan over a grid in which every scanned parameter
    has at least one step completes, the script has built the Asimov data
    set once, before the first optimizer call, and writes one structure at
    the end.  Under [template_settings] it holds the template settings
    document, unchanged when no GPU id was given and otherwise with its
    [gpu_id] parameter set to the id and fixed, all else unchanged; under
    [minimizer_settings] the minimizer settings, unchanged unless scipy
    is old, when [maxiter] is removed; under [grid_settings] the grid
    settings as they came; and under [data_NH] or [data_IH] the Asimov
    data set and, under [hypo_NH] or [hypo_IH], the full accumulator of
    the scan. *)
Theorem results_bundle (args : args_t) (scipy_old : bool)
    (template_settings ts : Template.t Binning)
    (minimizer_settings ms : gmap string MinOpt)
    (grid_settings : gmap string Grid)
    (channel_param : Param.t) (grid_steps : Grid) :
  Template.params template_settings !! "channel" = Some channel_param →
  grid_settings !! "steps" = Some grid_steps →
  Template.binning ts = Template.binning template_settings →
  match gpu_id args with
  | None => Template.params ts = Template.params template_settings
  | Some g =>
      Template.params ts !! "gpu_id" = Some (Param.mk (PyInt g) true None) ∧
      ∀ k, k ≠ "gpu_id" →
        Template.params ts !! k = Template.params template_settings !! k
  end →
  (if scipy_old
   then ms !! "maxiter" = None ∧
        ∀ k, k ≠ "maxiter" → ms !! k = minimizer_settings !! k
   else ms = minimizer_settings) →
  let ps := fix_atm_params (Template.params ts) in
  let tm := TemplateMaker (get_values ps) (Template.binning ts) in
  let data_values := get_values (select_hierarchy ps (data_nh args)) in
  let asimov := get_asimov_fmap tm data_values (Param.value channel_param) in
  let hp0 := select_hierarchy ps (hypo_nh args) in
  let atm_params := calc_steps (get_atm_params hp0) grid_steps in
  let evaluate hp :=
    find_opt_scipy asimov tm hp ms (save_steps args) (hypo_nh args) in
  let data_tag := if data_nh args then "data_NH" else "data_IH" in
  let hypo_tag := if hypo_nh args then "hypo_NH" else "hypo_IH" in
  has_steps atm_params → atm_params !! "llh" = None →
  dom atm_params ⊆ dom hp0 → succeeds_on evaluate hp0 atm_params →
  map_Forall (λ _ p, step_values p ≠ []) atm_params →
  ∃ st results data,
    run_scan evaluate hp0 atm_params = Done st ∧
    calls st = snapshot hp0 <$> grid_points atm_params ∧
    main fix_atm_params get_values TemplateMaker select_hierarchy
      get_asimov_fmap get_atm_params calc_steps find_opt_scipy
      args scipy_old template_settings minimizer_settings grid_settings
    = mk_run
        (BuildAsimov data_values (Param.value channel_param)
           :: (Optimize <$> calls st) ++ [ToFile results (outfile args)])
        None ∧
    dom results
    = {["template_settings"; "minimizer_settings"; "grid_settings"; data_tag]} ∧
    results !! "template_settings" = Some (TemplateSettings ts) ∧
    results !! "minimizer_settings" = Some (MinimizerSettings ms) ∧
    results !! "grid_settings" = Some (GridSettings grid_settings) ∧
    results !! data_tag = Some (Data data) ∧
    dom data = {["asimov_data"; hypo_tag]} ∧
    data !! "asimov_data" = Some (Asimov asimov) ∧
    data !! hypo_tag = Some (Steps (steps st)).
Proof.
  intros Hchannel Hgrid Hbinning Hts Hms.
  apply with_gpu_id_unique in Hts; [|done].
  apply drop_maxiter_unique in Hms. subst ts ms.
  intros ps tm data_values asimov hp0 atm_params evaluate data_tag hypo_tag
    Hs Hllh Hdom Hok Hsteps.
  destruct (Forall2_exists _ _ Hok) as [llhs Hllhs].
  pose proof (run_scan_done evaluate hp0 atm_params llhs Hs Hllh Hdom Hllhs)
    as Hrun.
  pose proof (grid_points_nonempty atm_params Hsteps) as Hne.
  eexists _, _, _. split_and!.
  - exact Hrun.
  - reflexivity.
  - unfold main. rewrite Hchannel, Hgrid.
    fold ps. fold tm. fold data_values. fold asimov. fold hp0.
    fold atm_params. fold evaluate. rewrite Hrun. reflexivity.
  - unfold data_tag, data_tag_of. destruct (data_nh args);
      rewrite !dom_insert_L, dom_empty_L; set_solver.
  - unfold data_tag_of. destruct (data_nh args); by simplify_map_eq.
  - unfold data_tag_of. destruct (data_nh args); by simplify_map_eq.
  - unfold data_tag_of. destruct (data_nh args); by simplify_map_eq.
  - unfold data_tag, data_tag_of. destruct (data_nh args);
      apply lookup_insert_eq.
  - unfold data_entry. simpl. rewrite bool_decide_eq_true_2 by done.
    unfold hypo_tag, hypo_tag_of. destruct (hypo_nh args);
      rewrite !dom_insert_L, dom_empty_L; set_solver.
  - unfold data_entry. simpl. rewrite bool_decide_eq_true_2 by done.
    unfold hypo_tag_of. destruct (hypo_nh args); by simplify_map_eq.
  - unfold data_entry. simpl. rewrite bool_decide_eq_true_2 by done.
    unfold hypo_tag, hypo_tag_of. destruct (hypo_nh args);
      apply lookup_insert_eq.
Qed.
End ScriptFacts.

Lemma results_bundle_witness :
  ∃ st results data,
    run_scan steady demo_hypo demo_atm = Done st ∧
    demo_main true demo_args demo_template demo_minimizer demo_grid_two
    = mk_run
        (BuildAsimov (demo_get_values demo_hypo) (PyStr "all")
           :: (Optimize <$> calls st) ++ [ToFile results "llh_data.json"])
        None ∧
    results !! "template_settings" = Some (TemplateSettings demo_template_gpu) ∧
    results !! "minimizer_settings" = Some (MinimizerSettings ∅) ∧
    results !! "data_NH" = Some (Data data) ∧
    data !! "hypo_NH" = Some (Steps (steps st)).
Proof.
  destruct (results_bundle demo_fix_atm_params demo_get_values (λ values _, values)
              (λ ps _, ps) (λ _ values _, values) demo_get_atm_params
              demo_calc_steps (λ _ _ hp _ _ _, steady hp)
              demo_args true demo_template demo_template_gpu
              demo_minimizer ∅ demo_grid_two
              (Param.mk (PyStr "all") true None)
              (PyFloat 0.35%float, [PyFloat 0.65%float])
              eq_refl eq_refl eq_refl)
    as (st & results & data
        & Hrun & _ & Hmain & _ & Hts & Hms & _ & Hdata & _ & _ & Hsteps).
  - split; [reflexivity|]. intros k Hk.
    unfold demo_template_gpu. simpl. by rewrite lookup_insert_ne.
  - split; [reflexivity|]. intros k Hk. unfold demo_minimizer.
    by rewrite lookup_empty, lookup_insert_ne, lookup_empty.
  - apply (bool_decide_unpack _). vm_compute. reflexivity.
  - vm_compute. reflexivity.
  - apply (bool_decide_unpack _). vm_compute. reflexivity.
  - apply steady_succeeds.
  - intros k p Hp. change (step_values p ≠ []).
    apply lookup_fmap_Some in Hp as (q & <- & _). discriminate.
  - exists st, results, data. split_and!; assumption.
Defined.

(** C10.  With no atmospheric parameter to scan, the product of no step
    list is the one empty position: the optimizer is called exactly once,
    with the parameters as they are, and when it returns a likelihood the
    script raises nothing and the result has the single key [llh] with that
    one likelihood. *)
Theorem no_parameter_one_point evaluate hp0 x :
  verdict evaluate hp0 = inr x →
  grid_points ∅ = [[]] ∧
  run_scan evaluate hp0 ∅
  = Done (mk_state hp0 {["llh" := [x]]} true [hp0]).
Proof.
  intros Hx. split; [reflexivity|].
  rewrite run_scan_no_params. unfold record_llh, verdict in *. simpl.
  destruct (evaluate hp0) as [e|llh_data]; [done|].
  rewrite lookup_singleton_eq, Hx. simpl.
  by rewrite insert_singleton_eq.
Qed.

Lemma no_parameter_one_point_witness :
  grid_points ∅ = [[]] ∧
  run_scan steady hypo2 ∅
  = Done (mk_state hypo2 {["llh" := [PyFloat 10.25%float]]} true [hypo2]).
Proof. exact (no_parameter_one_point steady hypo2 (PyFloat 10.25%float) eq_refl). Defined.

(** * Further properties *)

(** ** Row-major order of the result *)

Lemma lookup_bind_block {A B} (f : A → list B) (l : list A) m i j x :
  (∀ a, length (f a) = m) → l !! i = Some x → j < m →
  (l ≫= f) !! (i * m + j) = f x !! j.
Proof.
  intros Hf. revert i. induction l as [|a l IH]; intros i Hi Hj; [done|].
  rewrite bind_cons. destruct i as [|i]; simpl in *.
  - injection Hi as ->. apply lookup_app_l. by rewrite Hf.
  - rewrite lookup_app_r by (rewrite Hf; lia).
    rewrite Hf. replace (m + i * m + j - m) with (i * m + j) by lia.
    by apply IH.
Qed.

Lemma length_index_grid lens : length (index_grid lens) = volume lens.
Proof.
  induction lens as [|n lens IH]; [done|]. simpl.
  rewrite (length_bind_const _ _ (volume lens)).
  - by rewrite length_seq.
  - intros i. by rewrite length_fmap.
Qed.

Lemma rank_lt lens idx : Forall2 lt idx lens → rank lens idx < volume lens.
Proof.
  induction 1 as [|i n idx lens Hi _ IH]; simpl; [lia|]. nia.
Qed.

Lemma index_grid_rank lens idx :
  Forall2 lt idx lens → index_grid lens !! rank lens idx = Some idx.
Proof.
  induction 1 as [|i n idx lens Hi Hrest IH]; [done|]. simpl.
  rewrite (lookup_bind_block _ _ (volume lens) i _ i).
  - by rewrite list_lookup_fmap, IH.
  - intros a. by rewrite length_fmap, length_index_grid.
  - by apply lookup_seq_lt.
  - by apply rank_lt.
Qed.

Lemma grid_points_rank atm_params idx :
  Forall2 lt idx (grid_shape atm_params) →
  ∃ pos, point_at (sorted_items atm_params) idx = Some pos ∧
    grid_points atm_params !! rank (grid_shape atm_params) idx = Some pos.
Proof.
  intros Hidx%index_grid_rank.
  destruct (Forall2_lookup_r _ _ _ _ _ (grid_points_point_at atm_params) Hidx)
    as (pos & Hpos & Hat).
  by exists pos.
Qed.

Lemma position_value_unique (pos : position) k v v' :
  NoDup pos.*1 → (k, v) ∈ pos → (k, v') ∈ pos → v = v'.
Proof.
  intros Hnd Hv%dict_lookup Hv'%dict_lookup; [|done..]. congruence.
Qed.

(** X1.  The rows of a completed scan are in row-major order of the grid:
    the point that takes step [i_j] of the [j]-th sorted name stands at the
    place [rank] of its index vector, in the [llh] row and in the row of
    every scanned name alike. *)
Theorem rows_in_row_major_order evaluate hp0 atm_params llhs idx :
  has_steps atm_params → atm_params !! "llh" = None →
  dom atm_params ⊆ dom hp0 →
  Forall2 (λ pos x, verdict evaluate (snapshot hp0 pos) = inr x)
    (grid_points atm_params) llhs →
  Forall2 lt idx (grid_shape atm_params) →
  let place := rank (grid_shape atm_params) idx in
  ∃ st pos x,
    run_scan evaluate hp0 atm_params = Done st ∧
    point_at (sorted_items atm_params) idx = Some pos ∧
    verdict evaluate (snapshot hp0 pos) = inr x ∧
    steps st !! "llh" ≫= (.!! place) = Some x ∧
    ∀ k v, (k, v) ∈ pos → steps st !! k ≫= (.!! place) = Some v.
Proof.
  intros Hs Hllh Hdom Hok Hidx place. subst place.
  destruct (grid_points_rank atm_params idx Hidx) as (pos & Hat & Hpos).
  destruct (Forall2_lookup_l _ _ _ _ _ Hok Hpos) as (x & Hx & Hv).
  exists (state_after hp0 atm_params (grid_points atm_params) llhs), pos, x.
  split_and!; [by apply run_scan_done|done|done|..].
  - simpl. by rewrite rows_lookup_llh.
  - intros k v Hkv. simpl.
    pose proof (Forall_lookup_1 _ _ _ _ (grid_points_names atm_params) Hpos)
      as Hnames.
    assert (NoDup pos.*1) as Hnd by (rewrite Hnames; apply sorted_items_NoDup).
    assert (k ∈ dom atm_params) as Hk.
    { rewrite <-sorted_names_dom, <-Hnames.
      apply elem_of_list_to_set, list_elem_of_fmap. by exists (k, v). }
    assert (k ≠ "llh") as Hne by (intros ->; by apply not_elem_of_dom in Hllh).
    rewrite rows_lookup by done.
    pose proof Hk as [p ->]%elem_of_dom. simpl.
    destruct (Forall2_lookup_l _ _ _ _ _
                (column_values atm_params (grid_points atm_params) k
                   (grid_points_on_grid _) (grid_points_NoDup _) Hk) Hpos)
      as (v' & Hcol & Hv').
    rewrite Hcol. f_equal. by eapply position_value_unique.
Qed.

Lemma rows_in_row_major_order_witness :
  ∃ st pos x,
    run_scan steady hypo2 atm2 = Done st ∧
    point_at (sorted_items atm2) [1; 2] = Some pos ∧
    verdict steady (snapshot hypo2 pos) = inr x ∧
    steps st !! "llh" ≫= (.!! 5) = Some x ∧
    ∀ k v, (k, v) ∈ pos → steps st !! k ≫= (.!! 5) = Some v.
Proof.
  apply (rows_in_row_major_order steady hypo2 atm2
           (replicate 6 (PyFloat 10.25%float)) [1; 2]
           atm2_has_steps eq_refl atm2_in_hypo2).
  - rewrite grid_points_atm2. repeat constructor.
  - assert (grid_shape atm2 = [2; 3]) as -> by (vm_compute; reflexivity).
    repeat constructor.
Defined.

(** ** Where the scan leaves the parameters *)

Lemma last_bind_cons_fmap {A} (pool : list A) (tuples : list (list A)) :
  last (pool ≫= λ y, (y ::.) <$> tuples)
  = y ← last pool; ys ← last tuples; Some (y :: ys).
Proof.
  induction pool as [|x pool IH]; [done|].
  rewrite bind_cons, last_app, IH, fmap_last, (last_cons x pool).
  destruct (last pool) as [y|]; simpl; by destruct (last tuples).
Qed.

Lemma last_nested_loops {A} (pools : list (list A)) :
  last (nested_loops pools) = select_last pools.
Proof.
  induction pools as [|pool pools IH]; [done|].
  simpl. by rewrite last_bind_cons_fmap, IH.
Qed.

Lemma select_last_pools_of items pos k p v :
  select_last (pools_of items) = Some pos →
  (k, p) ∈ items → last (step_values p) = Some v → (k, v) ∈ pos.
Proof.
  revert pos. induction items as [|[name q] items IH]; intros pos Hpos Hin Hv.
  - by apply elem_of_nil in Hin.
  - simpl in Hpos. rewrite fmap_last in Hpos.
    destruct (last (step_values q)) as [w|] eqn:Hw; [|done]. simpl in Hpos.
    destruct (select_last (pools_of items)) as [rest|] eqn:Hrest; [|done].
    injection Hpos as <-.
    apply elem_of_cons in Hin as [[= -> ->]|Hin].
    + rewrite Hw in Hv. injection Hv as ->. apply list_elem_of_here.
    + apply list_elem_of_further. by apply IH.
Qed.

Lemma last_grid_points atm_params :
  last (grid_points atm_params) = select_last (pools_of (sorted_items atm_params)).
Proof. unfold grid_points. by rewrite product_nested_loops, last_nested_loops. Qed.

(** X2.  A completed scan restores nothing: it leaves the value of every
    scanned parameter at the last value of its step list, with its flag and
    steps as they were, and every other parameter as it was; over a grid
    without a position it leaves all parameters as they were. *)
Theorem scan_leaves_last_steps evaluate hp0 atm_params llhs :
  has_steps atm_params → atm_params !! "llh" = None →
  dom atm_params ⊆ dom hp0 →
  Forall2 (λ pos x, verdict evaluate (snapshot hp0 pos) = inr x)
    (grid_points atm_params) llhs →
  ∃ st, run_scan evaluate hp0 atm_params = Done st ∧
    (grid_points atm_params = [] → hypo_params st = hp0) ∧
    (∀ k p v,
       atm_params !! k = Some p → grid_points atm_params ≠ [] →
       last (step_values p) = Some v →
       hypo_params st !! k = Param.set_value v <$> hp0 !! k ∧
       Param.value <$> hypo_params st !! k = Some v ∧
       Param.fixed <$> hypo_params st !! k = Param.fixed <$> hp0 !! k ∧
       Param.steps <$> hypo_params st !! k = Param.steps <$> hp0 !! k) ∧
    (∀ k, k ∉ dom atm_params → hypo_params st !! k = hp0 !! k).
Proof.
  intros Hs Hllh Hdom Hok.
  exists (state_after hp0 atm_params (grid_points atm_params) llhs).
  split; [by apply run_scan_done|]. simpl. unfold current.
  destruct (last (grid_points atm_params)) as [pos|] eqn:Hlast; simpl.
  - assert (pos ∈ grid_points atm_params) as Hin.
    { apply last_Some in Hlast as [l ->]. apply elem_of_app. right.
      apply list_elem_of_here. }
    pose proof (proj1 (Forall_forall _ _) (grid_points_names atm_params) _ Hin)
      as Hnames.
    split_and!.
    + intros Hnil. by rewrite Hnil in Hlast.
    + intros k p v Hp _ Hv.
      assert (snapshot hp0 pos !! k = Param.set_value v <$> hp0 !! k) as ->.
      { apply snapshot_lookup_scanned.
        - rewrite Hnames. apply sorted_items_NoDup.
        - rewrite last_grid_points in Hlast.
          eapply select_last_pools_of; [done| |done].
          by apply elem_of_sorted_items. }
      assert (k ∈ dom hp0) as [q ->]%elem_of_dom.
      { apply Hdom. by apply elem_of_dom_2 in Hp. }
      done.
    + intros k Hk. apply snapshot_lookup_other. rewrite Hnames.
      intros Hin'. apply Hk. rewrite <-sorted_names_dom.
      by apply elem_of_list_to_set.
  - apply last_None in Hlast. split_and!; [done| |done].
    intros k p v _ Hne. done.
Qed.

Lemma scan_leaves_last_steps_witness :
  ∃ st, run_scan steady hypo2 atm2 = Done st ∧
    Param.value <$> hypo_params st !! "theta23" = Some (PyFloat 0.65%float) ∧
    Param.value <$> hypo_params st !! "deltam31" = Some (PyFloat 0.003%float) ∧
    hypo_params st !! "aeff_scale" = hypo2 !! "aeff_scale".
Proof.
  destruct (scan_leaves_last_steps steady hypo2 atm2
              (replicate 6 (PyFloat 10.25%float))
              atm2_has_steps eq_refl atm2_in_hypo2)
    as (st & Hrun & _ & Hlast & Hother).
  - rewrite grid_points_atm2. repeat constructor.
  - assert (grid_points atm2 ≠ []) as Hne
      by (rewrite grid_points_atm2; discriminate).
    exists st. split; [exact Hrun|]. split_and!.
    + by destruct (Hlast "theta23" theta23 (PyFloat 0.65%float) eq_refl Hne eq_refl)
        as (_ & Hv & _).
    + by destruct (Hlast "deltam31" deltam31 (PyFloat 0.003%float) eq_refl Hne eq_refl)
        as (_ & Hv & _).
    + apply Hother. apply not_elem_of_dom. reflexivity.
Defined.

(** ** The order of the inner loop *)

(** X3.  The order in which [pos_dict.items()] hands out the pairs of a
    position does not matter: when the names are distinct and are keys of
    [hypo_params] and of [steps], fixing the pairs in any two orders ends in
    the same state, and so does taking them in the order of the position
    itself. *)
Theorem inner_loop_order_irrelevant items items' st :
  NoDup items.*1 → items ≡ₚ items' →
  list_to_set items.*1 ⊆ dom (hypo_params st) ∩ dom (steps st) →
  fix_params items st = fix_params items' st ∧
  fix_params (map_to_list (dict items)) st = fix_params items st.
Proof.
  intros Hnd Hperm Hdom.
  assert (∀ l, items ≡ₚ l → fix_params l st = fix_params items st) as Hany.
  { intros l Hl. rewrite !fix_params_spec; [|done|done|by rewrite <-Hl|].
    - by rewrite (list_to_map_proper items l).
    - intros k Hk. apply Hdom. by rewrite Hl. }
  split; [symmetry; by apply Hany|].
  apply Hany. rewrite dict_list_to_map by done.
  symmetry. by apply map_to_list_to_map.
Qed.

Lemma inner_loop_order_irrelevant_witness :
  fix_params second_position (initial_state hypo2 atm2)
  = fix_params (reverse second_position) (initial_state hypo2 atm2) ∧
  fix_params (map_to_list (dict second_position)) (initial_state hypo2 atm2)
  = fix_params second_position (initial_state hypo2 atm2).
Proof.
  apply inner_loop_order_irrelevant.
  - apply (bool_decide_unpack _). vm_compute. reflexivity.
  - apply Permutation_swap.
  - apply (bool_decide_unpack _). vm_compute. reflexivity.
Defined.

(** ** Missing keys *)

Lemma fix_params_missing items : ∀ st,
  list_to_set items.*1 ⊆ dom (steps st) →
  (∃ k, k ∈ items.*1 ∧ k ∉ dom (hypo_params st)) →
  ∃ k st', fix_params items st = Raised (KeyError k) st' ∧
    k ∈ items.*1 ∧ (k ∉ dom (hypo_params st)) ∧ calls st' = calls st.
Proof.
  induction items as [|[k v] items IH]; intros st Hsteps (k0 & Hk0 & Hmiss).
  - by apply elem_of_nil in Hk0.
  - simpl in *. unfold fix_param. simpl.
    destruct (hypo_params st !! k) as [p|] eqn:Hp.
    + assert (k ∈ dom (steps st)) as [row Hrow]%elem_of_dom by set_solver.
      rewrite Hrow. simpl.
      assert (k0 ≠ k) as Hne.
      { intros ->. apply Hmiss. apply elem_of_dom. by eexists. }
      apply elem_of_cons in Hk0 as [?|Hk0]; [done|].
      destruct (IH (mk_state (<[k := Param.set_value v p]> (hypo_params st))
                      (<[k := row ++ [v]]> (steps st)) (stored st) (calls st)))
        as (k' & st' & Hrun & Hin & Hout & Hcalls).
      * simpl. rewrite dom_insert_L. set_solver.
      * exists k0. split; [done|]. simpl. rewrite dom_insert_L. set_solver.
      * exists k', st'. split_and!; [done|by apply list_elem_of_further| |done].
        simpl in Hout. rewrite dom_insert_L in Hout. set_solver.
    + exists k, st. split_and!; [done|apply list_elem_of_here| |done].
      by apply not_elem_of_dom.
Qed.

(** X4.  When a scanned name is not a key of [hypo_params] and the grid has
    a position, the script dies at the first position with the [KeyError]
    of a scanned name that [hypo_params] lacks, before the optimizer is
    ever called. *)
Theorem missing_parameter_raises evaluate hp0 atm_params k0 :
  has_steps atm_params → grid_points atm_params ≠ [] →
  k0 ∈ dom atm_params → k0 ∉ dom hp0 →
  ∃ k st, run_scan evaluate hp0 atm_params = Raised (KeyError k) st ∧
    k ∈ dom atm_params ∧ (k ∉ dom hp0) ∧ calls st = [].
Proof.
  intros Hs Hne Hk0 Hmiss. rewrite run_scan_grid by done.
  pose proof (grid_points_on_grid atm_params) as Hgrid.
  destruct (grid_points atm_params) as [|pos rest]; [done|].
  apply Forall_cons in Hgrid as [Hpos _]. unfold on_grid in Hpos.
  assert (list_to_set (map_to_list (dict pos)).*1 = dom atm_params) as Hkeys.
  { rewrite <-Hpos. rewrite <-(list_to_map_to_list (dict pos)) at 2.
    by rewrite dom_list_to_map_L. }
  destruct (fix_params_missing (map_to_list (dict pos))
              (state_after hp0 atm_params [] []))
    as (k & st & Hrun & Hin & Hout & Hcalls).
  - simpl. rewrite Hkeys. unfold rows. rewrite dom_insert_L.
    intros k Hk. apply elem_of_union. right.
    apply elem_of_dom. rewrite map_lookup_imap.
    apply elem_of_dom in Hk as [p ->]. by eexists.
  - exists k0. split; [|done].
    apply (elem_of_list_to_set (C := gset string)). by rewrite Hkeys.
  - exists k, st. simpl. unfold scan_point. rewrite Hrun. simpl.
    split_and!; [done| |done|done].
    rewrite <-Hkeys. by apply elem_of_list_to_set.
Qed.

Lemma missing_parameter_raises_witness :
  ∃ k st, run_scan steady ∅ atm2 = Raised (KeyError k) st ∧
    k ∈ dom atm2 ∧ (k ∉ dom (∅ : params)) ∧ calls st = [].
Proof.
  apply (missing_parameter_raises steady ∅ atm2 "theta23" atm2_has_steps).
  - rewrite grid_points_atm2. discriminate.
  - apply elem_of_dom. by eexists.
  - apply not_elem_of_dom. reflexivity.
Defined.

Lemma steplist_of_missing items :
  (∃ it, it ∈ items ∧ Param.steps it.2 = None) →
  steplist_of items = inl (KeyError "steps").
Proof.
  induction items as [|[name q] items IH]; intros (it & Hin & Hnone).
  - by apply elem_of_nil in Hin.
  - simpl. unfold name_steps.
    destruct (Param.steps q) as [l|] eqn:Hq; [|done].
    rewrite IH; [done|].
    apply elem_of_cons in Hin as [->|Hin]; [simpl in *; congruence|].
    by exists it.
Qed.

(** X5.  When a scanned parameter has no ['steps'], the script dies with
    [KeyError('steps')] while it builds the step list: the accumulator is
    not yet created and the optimizer is never called, whatever the other
    parameters are. *)
Theorem missing_steps_raises evaluate hp0 atm_params k p :
  atm_params !! k = Some p → Param.steps p = None →
  run_scan evaluate hp0 atm_params
  = Raised (KeyError "steps") (mk_state hp0 ∅ false []).
Proof.
  intros Hp Hnone. unfold run_scan, steplist.
  rewrite steplist_of_missing; [done|].
  exists (k, p). split; [by apply elem_of_sorted_items|done].
Qed.

Lemma missing_steps_raises_witness :
  run_scan steady hypo2 hypo2
  = Raised (KeyError "steps") (mk_state hypo2 ∅ false []).
Proof.
  exact (missing_steps_raises steady hypo2 hypo2 "aeff_scale" aeff_scale
           eq_refl eq_refl).
Defined.

(** ** What the script writes *)

Section OutputFacts.
Context {Binning MinOpt Grid Values Hist TM : Type}.
Variable fix_atm_params : params → params.
Variable get_values : params → Values.
Variable TemplateMaker : Values → Binning → TM.
Variable select_hierarchy : params → bool → params.
Variable get_asimov_fmap : TM → Values → pyval → Hist.
Variable get_atm_params : params → params.
Variable calc_steps : params → Grid → params.
Variable find_opt_scipy :
  Hist → TM → params → gmap string MinOpt → bool → bool →
  exn + gmap string (list pyval).

End OutputFacts.

(** ** The scipy version test *)

Section VersionFacts.
Import Stdlib.Strings.Ascii.

(** X7.  The test for an old scipy compares the version strings as text,
    not as numbers: every version [0.d...] whose first minor digit [d] is
    above ['1'], such as 0.9.0, is not taken for older than 0.12.0 and
    keeps its [maxiter], while the versions that start with [0.10] or
    [0.11] are taken for old and lose it. *)
Theorem old_scipy_test_compares_text {MinOpt} (d : ascii) (rest : string)
    (minimizer_settings : gmap string MinOpt) :
  Ascii.compare "1"%char d = Lt →
  let version := String "0"%char (String "."%char (String d rest)) in
  scipy_is_old version = false ∧
  drop_maxiter (scipy_is_old version) minimizer_settings = minimizer_settings ∧
  scipy_is_old ("0.10" +:+ rest) = true ∧
  scipy_is_old ("0.11" +:+ rest) = true ∧
  drop_maxiter (scipy_is_old ("0.11" +:+ rest)) minimizer_settings !! "maxiter"
  = None.
Proof.
  intros Hd version.
  assert (scipy_is_old version = false) as Hold.
  { unfold scipy_is_old, version, String.ltb. simpl.
    rewrite Ascii.compare_antisym, Hd. reflexivity. }
  split_and!; [done|by rewrite Hold|done|done|].
  unfold drop_maxiter. simpl. apply lookup_delete_eq.
Qed.

Lemma old_scipy_test_compares_text_witness :
  scipy_is_old "0.9.0" = false ∧
  drop_maxiter (scipy_is_old "0.9.0") demo_minimizer = demo_minimizer ∧
  scipy_is_old "0.10.1" = true ∧
  scipy_is_old "0.11.1" = true ∧
  drop_maxiter (scipy_is_old "0.11.1") demo_minimizer !! "maxiter" = None.
Proof.
  exact (old_scipy_test_compares_text "9"%char ".0" demo_minimizer eq_refl).
Defined.
End VersionFacts.

(** ** The accumulator only grows *)

Lemma rows_extend_refl acc : rows_extend acc acc.
Proof. split; [done|]. intros k row Hrow. exists []. by rewrite app_nil_r. Qed.

Lemma rows_extend_trans acc1 acc2 acc3 :
  rows_extend acc1 acc2 → rows_extend acc2 acc3 → rows_extend acc1 acc3.
Proof.
  intros [Hd1 Hr1] [Hd2 Hr2]. split; [congruence|].
  intros k row Hrow. destruct (Hr1 k row Hrow) as [more1 Hrow2].
  destruct (Hr2 k _ Hrow2) as [more2 Hrow3].
  exists (more1 ++ more2). by rewrite (assoc_L (++)).
Qed.

Lemma rows_extend_append acc k row v :
  acc !! k = Some row → rows_extend acc (<[k := row ++ [v]]> acc).
Proof.
  intros Hrow. split.
  - rewrite dom_insert_L. apply elem_of_dom_2 in Hrow. set_solver.
  - intros k' row' Hrow'. destruct (decide (k' = k)) as [->|Hne].
    + rewrite lookup_insert_eq. exists [v]. congruence.
    + rewrite lookup_insert_ne by done. exists []. by rewrite app_nil_r.
Qed.

Lemma rows_extend_and_then o k st0 :
  rows_extend (steps st0) (steps (final_state o)) →
  (∀ st, rows_extend (steps st) (steps (final_state (k st)))) →
  rows_extend (steps st0) (steps (final_state (and_then o k))).
Proof.
  intros Ho Hk. destruct o as [st|e st]; simpl in *; [|done].
  eapply rows_extend_trans; [exact Ho|apply Hk].
Qed.

Lemma fix_param_extends kv st :
  rows_extend (steps st) (steps (final_state (fix_param kv st))).
Proof.
  unfold fix_param. destruct (hypo_params st !! kv.1); [|apply rows_extend_refl].
  destruct (steps st !! kv.1) eqn:Hrow; simpl;
    [by apply rows_extend_append|apply rows_extend_refl].
Qed.

Lemma fix_params_extends items : ∀ st,
  rows_extend (steps st) (steps (final_state (fix_params items st))).
Proof.
  induction items as [|kv items IH]; intros st; [apply rows_extend_refl|].
  simpl. apply rows_extend_and_then; [apply fix_param_extends|apply IH].
Qed.

Lemma record_llh_extends evaluate st :
  rows_extend (steps st) (steps (final_state (record_llh evaluate st))).
Proof.
  unfold record_llh. simpl.
  destruct (evaluate (hypo_params st)); [apply rows_extend_refl|].
  destruct (steps st !! "llh") eqn:Hrow; [|apply rows_extend_refl].
  destruct (final_llh _); simpl;
    [apply rows_extend_refl|by apply rows_extend_append].
Qed.

Lemma scan_loop_extends evaluate points : ∀ st,
  rows_extend (steps st) (steps (final_state (scan_loop evaluate points st))).
Proof.
  induction points as [|pos points IH]; intros st; [apply rows_extend_refl|].
  simpl. apply rows_extend_and_then; [|apply IH].
  unfold scan_point. apply rows_extend_and_then;
    [apply fix_params_extends|apply record_llh_extends].
Qed.

(** X8.  The accumulator is append-only.  Whatever the optimizer does and
    however the scan ends, the loop never adds or removes a key and never
    changes or drops a value already recorded: every row of the state it
    started from is a prefix of the row it ends with.  When every scanned
    parameter has its steps, the keys are the scanned names and [llh] from
    the first position to the end. *)
Theorem accumulator_only_grows evaluate hp0 atm_params :
  has_steps atm_params →
  dom (steps (final_state (run_scan evaluate hp0 atm_params)))
  = {["llh"]} ∪ dom atm_params ∧
  ∀ points st,
    rows_extend (steps st) (steps (final_state (scan_loop evaluate points st))).
Proof.
  intros Hs. split; [|intros points st; apply scan_loop_extends].
  unfold run_scan. rewrite steplist_pools by done.
  destruct (scan_loop_extends evaluate
              (product (pools_of (sorted_items atm_params)))
              (mk_state hp0 (init_steps atm_params) false [])) as [-> _].
  simpl. unfold init_steps. by rewrite dom_insert_L, dom_fmap_L.
Qed.

Lemma accumulator_only_grows_witness :
  dom (steps (final_state (run_scan crashing_at_half hypo2 atm2)))
  = {["llh"]} ∪ dom atm2 ∧
  ∀ points st,
    rows_extend (steps st)
      (steps (final_state (scan_loop crashing_at_half points st))).
Proof. exact (accumulator_only_grows crashing_at_half hypo2 atm2 atm2_has_steps). Defined.

(** ** A scanned parameter called [llh] *)

Section Collision.
Variable evaluate : params → exn + gmap string (list pyval).
Variables hp0 atm_params : params.
Hypothesis llh_scanned : "llh" ∈ dom atm_params.
Hypothesis atm_in_hypo : dom atm_params ⊆ dom hp0.
Hypothesis always_succeeds : ∀ hp, ∃ x, verdict evaluate hp = inr x.

Lemma scan_point_doubled pos n st :
  on_grid atm_params pos → doubled hp0 atm_params n st →
  ∃ st', scan_point evaluate pos st = Done st' ∧ doubled hp0 atm_params (S n) st'.
Proof.
  intros Hpos (Hhp & Hacc & Hlen). unfold on_grid in Hpos.
  unfold scan_point. rewrite fix_params_spec; simpl.
  - rewrite list_to_map_to_list. unfold record_llh. simpl.
    destruct (always_succeeds (fixed_at (dict pos) (hypo_params st)))
      as [x Hx].
    unfold verdict in Hx.
    destruct (evaluate (fixed_at (dict pos) (hypo_params st)))
      as [e|llh_data]; [done|].
    assert ("llh" ∈ dom (steps st)) as [row0 Hrow0]%elem_of_dom
      by by rewrite Hacc.
    assert ("llh" ∈ dom (dict pos)) as [v0 Hv0]%elem_of_dom
      by by rewrite Hpos.
    unfold appended at 1. rewrite overlay_lookup, Hrow0, Hv0, Hx. simpl.
    eexists. split; [reflexivity|]. split_and!; simpl.
    + unfold fixed_at. by rewrite dom_overlay.
    + rewrite dom_insert_L. unfold appended. rewrite dom_overlay, Hacc.
      set_solver.
    + intros k row. destruct (decide (k = "llh")) as [->|Hne].
      * rewrite lookup_insert_eq. intros [= <-].
        rewrite !length_app. simpl.
        rewrite (Hlen "llh" row0 Hrow0). simpl. lia.
      * rewrite lookup_insert_ne by done. unfold appended.
        rewrite overlay_lookup, bool_decide_eq_false_2 by done.
        destruct (steps st !! k) as [rowk|] eqn:Hrowk; [simpl|done].
        assert (k ∈ dom (dict pos)) as [v ->]%elem_of_dom.
        { rewrite Hpos, <-Hacc. by apply elem_of_dom_2 in Hrowk. }
        simpl. intros [= <-]. rewrite length_app. simpl.
        pose proof (Hlen k rowk Hrowk) as Hk.
        rewrite bool_decide_eq_false_2 in Hk by done. lia.
  - apply NoDup_fst_map_to_list.
  - assert (list_to_set (map_to_list (dict pos)).*1 = dom (dict pos)) as ->.
    { rewrite <-(list_to_map_to_list (dict pos)) at 2.
      by rewrite dom_list_to_map_L. }
    rewrite Hpos, Hhp, Hacc. set_solver.
Qed.

Lemma scan_loop_doubled points : ∀ n st,
  Forall (on_grid atm_params) points → doubled hp0 atm_params n st →
  ∃ st', scan_loop evaluate points st = Done st' ∧
    doubled hp0 atm_params (n + length points) st'.
Proof.
  induction points as [|pos points IH]; intros n st Hgrid Hst.
  - exists st. by rewrite Nat.add_0_r.
  - apply Forall_cons in Hgrid as [Hpos Hgrid].
    destruct (scan_point_doubled pos n st Hpos Hst) as (st1 & Hrun1 & Hst1).
    destruct (IH (S n) st1 Hgrid Hst1) as (st' & Hrun & Hst').
    exists st'. simpl. rewrite Hrun1. simpl. split; [done|].
    by replace (n + S (length points)) with (S n + length points) by lia.
Qed.
End Collision.

(** X9.  The key [llh] is not protected.  When a scanned parameter is
    itself called [llh], its row receives the grid value and the
    likelihood of every position: after a completed scan over N positions
    it holds 2N values, while the rows of the other scanned names hold
    N. *)
Theorem llh_parameter_doubles_row evaluate hp0 atm_params :
  has_steps atm_params → "llh" ∈ dom atm_params →
  dom atm_params ⊆ dom hp0 →
  (∀ hp, ∃ x, verdict evaluate hp = inr x) →
  ∃ st, run_scan evaluate hp0 atm_params = Done st ∧
    length <$> steps st !! "llh"
    = Some (2 * volume (grid_shape atm_params)) ∧
    ∀ k, k ∈ dom atm_params → k ≠ "llh" →
      length <$> steps st !! k = Some (volume (grid_shape atm_params)).
Proof.
  intros Hs Hllh Hdom Hok. unfold run_scan. rewrite steplist_pools by done.
  destruct (scan_loop_doubled evaluate hp0 atm_params Hllh Hdom Hok
              (grid_points atm_params) 0
              (mk_state hp0 (init_steps atm_params) false []))
    as (st & Hrun & _ & Hacc & Hlen).
  - apply grid_points_on_grid.
  - split_and!; simpl; [done| |].
    + unfold init_steps. rewrite dom_insert_L, dom_fmap_L. set_solver.
    + intros k row. unfold init_steps.
      destruct (decide (k = "llh")) as [->|Hne].
      * rewrite lookup_insert_eq. by intros [= <-].
      * rewrite lookup_insert_ne, lookup_fmap by done.
        rewrite bool_decide_eq_false_2 by done.
        destruct (atm_params !! k); [|done]. by intros [= <-].
  - exists st. split; [exact Hrun|]. simpl in Hlen.
    rewrite length_grid_points in Hlen. split.
    + assert ("llh" ∈ dom (steps st)) as [row Hrow]%elem_of_dom
        by by rewrite Hacc.
      rewrite Hrow. simpl. f_equal. by rewrite (Hlen "llh" row Hrow).
    + intros k Hk Hne.
      assert (k ∈ dom (steps st)) as [row Hrow]%elem_of_dom by by rewrite Hacc.
      rewrite Hrow. simpl. f_equal. rewrite (Hlen k row Hrow).
      by rewrite bool_decide_eq_false_2.
Qed.

Lemma llh_parameter_doubles_row_witness :
  ∃ st, run_scan steady atm_llh atm_llh = Done st ∧
    length <$> steps st !! "llh" = Some 6 ∧
    ∀ k, k ∈ dom atm_llh → k ≠ "llh" → length <$> steps st !! k = Some 3.
Proof.
  apply (llh_parameter_doubles_row steady atm_llh atm_llh).
  - apply (bool_decide_unpack _). vm_compute. reflexivity.
  - apply elem_of_dom. by eexists.
  - done.
  - intros hp. by eexists.
Defined.

(** ** The result of the optimizer *)

(** X10.  The script reads [llh_data['llh'][-1]] unguarded.  At the first
    position where the optimizer returns a result without the key [llh],
    the script dies with [KeyError('llh')], and where it returns an empty
    likelihood trajectory, with [IndexError]; in both cases the call at
    that position is the last, and the [llh] row holds the likelihoods of
    the positions before. *)
Theorem malformed_optimizer_result evaluate hp0 atm_params
    before pos after llhs llh_data :
  has_steps atm_params → atm_params !! "llh" = None →
  dom atm_params ⊆ dom hp0 →
  grid_points atm_params = before ++ pos :: after →
  Forall2 (λ pos x, verdict evaluate (snapshot hp0 pos) = inr x) before llhs →
  evaluate (snapshot hp0 pos) = inr llh_data →
  (llh_data !! "llh" = None →
   ∃ st, run_scan evaluate hp0 atm_params = Raised (KeyError "llh") st ∧
     calls st = snapshot hp0 <$> (before ++ [pos]) ∧
     steps st !! "llh" = Some llhs) ∧
  (llh_data !! "llh" = Some [] →
   ∃ st, run_scan evaluate hp0 atm_params = Raised IndexError st ∧
     calls st = snapshot hp0 <$> (before ++ [pos]) ∧
     steps st !! "llh" = Some llhs).
Proof.
  intros Hs Hllh Hdom Hpoints Hok Hev.
  assert (∀ e, verdict evaluate (snapshot hp0 pos) = inl e →
    ∃ st, run_scan evaluate hp0 atm_params = Raised e st ∧
      calls st = snapshot hp0 <$> (before ++ [pos]) ∧
      steps st !! "llh" = Some llhs) as Hraise.
  { intros e He.
    pose proof (grid_points_on_grid atm_params) as Hgrid.
    rewrite run_scan_grid, Hpoints by done. rewrite Hpoints in Hgrid.
    rewrite (scan_loop_raised evaluate hp0 atm_params Hllh Hdom
               before pos after [] [] llhs e); [|..|done|done].
    - eexists. split; [done|]. split; [done|apply lookup_insert_eq].
    - simpl. rewrite cons_middle, (assoc_L (++)) in Hgrid.
      by apply Forall_app in Hgrid as [? _]. }
  split; intros Hbad; apply Hraise; unfold verdict, final_llh;
    by rewrite Hev, Hbad.
Qed.

Lemma malformed_optimizer_result_witness :
  ∃ st, run_scan (λ _, inr ∅) hypo2 atm2 = Raised (KeyError "llh") st ∧
    calls st = snapshot hypo2 <$> take 1 scan_order2 ∧
    steps st !! "llh" = Some [].
Proof.
  destruct (malformed_optimizer_result (λ _, inr ∅) hypo2 atm2
              []
              [("deltam31", PyFloat 0.002%float); ("theta23", PyFloat 0.35%float)]
              (drop 1 scan_order2) [] ∅
              atm2_has_steps eq_refl atm2_in_hypo2) as [Hkey _].
  - apply grid_points_atm2.
  - constructor.
  - reflexivity.
  - apply Hkey. reflexivity.
Defined.

(** ** When the scan ends normally *)

Lemma first_failure evaluate hp0 (points : list position) :
  (∃ llhs,
     Forall2 (λ pos x, verdict evaluate (snapshot hp0 pos) = inr x) points llhs) ∨
  (∃ before pos after llhs e,
     points = before ++ pos :: after ∧
     Forall2 (λ pos x, verdict evaluate (snapshot hp0 pos) = inr x) before llhs ∧
     verdict evaluate (snapshot hp0 pos) = inl e).
Proof.
  induction points as [|pos points IH]; [left; by exists []|].
  destruct (verdict evaluate (snapshot hp0 pos)) as [e|x] eqn:Hv.
  - right. by exists [], pos, points, [], e.
  - destruct IH as [[llhs Hok]|(before & pos' & after & llhs & e & -> & Hok & He)].
    + left. exists (x :: llhs). by constructor.
    + right. exists (pos :: before), pos', after, (x :: llhs), e.
      split_and!; [done|by constructor|done].
Qed.

(** X11.  The scan ends normally exactly when the optimizer returns a
    likelihood at every position of the grid; it then has called the
    optimizer once per position.  Otherwise it ends in the exception of
    the first position where the optimizer fails. *)
Theorem scan_completes_iff_all_succeed evaluate hp0 atm_params :
  has_steps atm_params → atm_params !! "llh" = None →
  dom atm_params ⊆ dom hp0 →
  ((∃ st, run_scan evaluate hp0 atm_params = Done st) ↔
   succeeds_on evaluate hp0 atm_params) ∧
  (∀ st, run_scan evaluate hp0 atm_params = Done st →
     length (calls st) = volume (grid_shape atm_params)) ∧
  (∀ e st, run_scan evaluate hp0 atm_params = Raised e st →
     ∃ before pos after,
       grid_points atm_params = before ++ pos :: after ∧
       Forall (λ pos, ∃ x, verdict evaluate (snapshot hp0 pos) = inr x) before ∧
       verdict evaluate (snapshot hp0 pos) = inl e).
Proof.
  intros Hs Hllh Hdom.
  pose proof (grid_points_on_grid atm_params) as Hgrid.
  destruct (first_failure evaluate hp0 (grid_points atm_params))
    as [[llhs Hok]|(before & pos & after & llhs & e & Hpoints & Hok & He)].
  - pose proof (run_scan_done evaluate hp0 atm_params llhs Hs Hllh Hdom Hok)
      as Hrun.
    split_and!.
    + split; [|by eexists]. intros _ pos Hpos.
      apply list_elem_of_lookup in Hpos as [i Hi].
      destruct (Forall2_lookup_l _ _ _ _ _ Hok Hi) as (x & _ & Hx).
      by exists x.
    + intros st Hst. rewrite Hrun in Hst. injection Hst as <-. simpl.
      by rewrite length_fmap, length_grid_points.
    + intros e st Hst. by rewrite Hrun in Hst.
  - assert (∃ st, run_scan evaluate hp0 atm_params = Raised e st) as [st Hrun].
    { rewrite run_scan_grid, Hpoints by done. rewrite Hpoints in Hgrid.
      rewrite (scan_loop_raised evaluate hp0 atm_params Hllh Hdom
                 before pos after [] [] llhs e); [by eexists|..|done|done].
      simpl. rewrite cons_middle, (assoc_L (++)) in Hgrid.
      by apply Forall_app in Hgrid as [? _]. }
    split_and!.
    + split; [intros [st' Hst']; by rewrite Hrun in Hst'|].
      intros Hall. destruct (Hall pos) as [x Hx].
      * rewrite Hpoints. apply elem_of_app. right. apply list_elem_of_here.
      * by rewrite He in Hx.
    + intros st' Hst'. by rewrite Hrun in Hst'.
    + intros e' st' Hst'. rewrite Hrun in Hst'. injection Hst' as <- <-.
      exists before, pos, after. split_and!; [done| |done].
      apply Forall_forall. intros pos' Hin.
      apply list_elem_of_lookup in Hin as [i Hi].
      destruct (Forall2_lookup_l _ _ _ _ _ Hok Hi) as (x & _ & Hx).
      by exists x.
Qed.

Lemma scan_completes_iff_all_succeed_witness :
  ((∃ st, run_scan crashing_at_half hypo2 atm2 = Done st) ↔
   succeeds_on crashing_at_half hypo2 atm2) ∧
  (∀ st, run_scan crashing_at_half hypo2 atm2 = Done st →
     length (calls st) = volume (grid_shape atm2)) ∧
  (∀ e st, run_scan crashing_at_half hypo2 atm2 = Raised e st →
     ∃ before pos after,
       grid_points atm2 = before ++ pos :: after ∧
       Forall (λ pos, ∃ x, verdict crashing_at_half (snapshot hypo2 pos) = inr x)
         before ∧
       verdict crashing_at_half (snapshot hypo2 pos) = inl e).
Proof.
  exact (scan_completes_iff_all_succeed crashing_at_half hypo2 atm2
           atm2_has_steps eq_refl atm2_in_hypo2).
Defined.
